(** * go-socket.io: backoff policy, polling frame encoder, client reconnection

    A shallow embedding of three parts of the repository and the properties
    its specification states about them:

    - [RetryStrategy] (the exponential backoff with jitter),
    - the polling transport's [encoder] and its [frameWriter],
    - the [Client]'s [reconnect], [Connect] and [Close].

    Conventions.

    - A Go [float64] is read as an exact rational ([Q]).  Rounding, overflow to
      an infinity and NaN are outside this model; the one infinity the program
      itself writes down (the default [reconnectionAttempts]) is a constructor
      of [limit].  Equality of delays is therefore [==] on [Q].
    - [attempts] is a counter: it is created as [0], [Duration] adds one and
      [Reset] stores [0]; it is a [float64] in the source only so that it can
      be compared with that infinity.  Here it is a [nat].
    - Randomness, the dialer and the clock are inputs: every function that the
      source lets draw, dial or wait takes the outcome as an argument or reads
      it from an explicit [World].
    - Pointers into one encoder (the writer's [*bufWriter], channel and
      [*int32]) are modelled by passing the encoder itself through every
      writer operation: a writer has no copy of the buffer. *)

From Stdlib Require Import Strings.String Strings.Byte.
From Stdlib Require Import ZArith NArith QArith Qround Qminmax Qpower.
From Stdlib Require Import List Bool Lia Lqa.
Import ListNotations.

Set Implicit Arguments.

(* ================================================================= *)
(** ** Part I: definitions *)
(* ================================================================= *)

(* ----------------------------------------------------------------- *)
(** *** RetryStrategy *)

(** [math.Floor], as a number of the same type as its argument. *)
Definition Floor (x : Q) : Q := inject_Z (Qfloor x).

(** [math.Pow(x, y)] at a counter [y]. *)
Definition Pow (x : Q) (y : nat) : Q := Qpower x (Z.of_nat y).

(** [math.Min]. *)
Definition Min (x y : Q) : Q := Qmin x y.

(** [x > 0] on floats. *)
Definition Qgt0 (x : Q) : bool := negb (Qle_bool x 0).

Record RetryStrategy : Type := mkRetryStrategy {
  ms : Q;
  max : Q;
  factor : Q;
  jitter : Q;
  attempts : nat
}.

Definition NewBackOff (opts : RetryStrategy) : RetryStrategy :=
  {| ms := ms opts;
     max := max opts;
     factor := factor opts;
     jitter := jitter opts;
     attempts := attempts opts |}.

Definition set_attempts (b : RetryStrategy) (a : nat) : RetryStrategy :=
  {| ms := ms b; max := max b; factor := factor b; jitter := jitter b;
     attempts := a |}.

(** [Duration]: [randVal] is the value [rand.Float64()] returns, which the
    source draws only when [jitter > 0].  The result is the returned delay
    and the receiver after the call. *)
Definition Duration (b : RetryStrategy) (randVal : Q) : Q * RetryStrategy :=
  let ms0 := ms b * Pow (factor b) (attempts b) in
  let b' := set_attempts b (S (attempts b)) in
  let ms1 :=
    if Qgt0 (jitter b) then
      let deviation := Floor (randVal * jitter b * ms0) in
      let jitterDecision := Z.land (Qfloor (randVal * 10)) 1 in
      if (jitterDecision =? 0)%Z then ms0 - deviation else ms0 + deviation
    else ms0 in
  (Min ms1 (max b), b').

Definition Reset (b : RetryStrategy) : RetryStrategy := set_attempts b 0.

Definition SetMin (b : RetryStrategy) (x : Q) : RetryStrategy :=
  {| ms := x; max := max b; factor := factor b; jitter := jitter b;
     attempts := attempts b |}.

Definition SetMax (b : RetryStrategy) (x : Q) : RetryStrategy :=
  {| ms := ms b; max := x; factor := factor b; jitter := jitter b;
     attempts := attempts b |}.

Definition SetJitter (b : RetryStrategy) (x : Q) : RetryStrategy :=
  {| ms := ms b; max := max b; factor := factor b; jitter := x;
     attempts := attempts b |}.

(** The receiver after [n] successive calls of [Duration] with no [Reset]
    between them; [rand k] is the draw available to call number [k]. *)
Fixpoint afterCalls (n : nat) (rand : nat -> Q) (b : RetryStrategy)
  : RetryStrategy :=
  match n with
  | O => b
  | S k => snd (Duration (afterCalls k rand b) (rand k))
  end.

(** What call number [n] (counted from zero) returns. *)
Definition nthDuration (n : nat) (rand : nat -> Q) (b : RetryStrategy) : Q :=
  fst (Duration (afterCalls n rand b) (rand n)).

(* ----------------------------------------------------------------- *)
(** *** Errors *)

(** A Go [error] made by [errors.New]: told apart by its message. *)
Inductive error : Type :=
| New (msg : string).

(** [io.EOF]. *)
Definition EOF : error := New "EOF".

Definition ErrPingTimeout : error := New "ping timeout".
Definition ErrSeparatorInTextFrame : error :=
  New "should not write 0x1e to text frames.".
Definition ErrNonCloseFrame : error := New "has a non-closed frame writer".

(* ----------------------------------------------------------------- *)
(** *** encoding/base64, as the frame writer uses it

    Go's standard library, not code of the repository: [base64.StdEncoding]
    with its alphabet, [Encode] with [=] padding, the streaming encoder that
    [NewEncoder] returns, and decoding. *)

Definition encodeStd : list byte :=
  list_byte_of_string
    "ABCDEFGHIJKLMNOPQRSTUVWXYZabcdefghijklmnopqrstuvwxyz0123456789+/".

Definition StdPadding : byte := "="%byte.

(** [enc.encode[i]]. *)
Definition encodeChar (i : N) : byte := nth (N.to_nat i) encodeStd x00.

(** [byte(n)]: the conversion of an unsigned integer to a byte. *)
Definition byteOfN (n : N) : byte :=
  match Byte.of_N (n mod 256) with
  | Some b => b
  | None => x00
  end.

(** [uint(src0)<<16 | uint(src1)<<8 | uint(src2)]. *)
Definition quantum (a b c : N) : N :=
  N.lor (N.lor (N.shiftl a 16) (N.shiftl b 8)) c.

(** [Encoding.Encode]: three bytes become four characters; a rest of one
    or two bytes becomes two or three characters and padding. *)
Fixpoint Encode (src : list byte) : list byte :=
  match src with
  | [] => []
  | [a] =>
      let val := N.shiftl (Byte.to_N a) 16 in
      [encodeChar (N.land (N.shiftr val 18) 63);
       encodeChar (N.land (N.shiftr val 12) 63);
       StdPadding; StdPadding]
  | [a; b] =>
      let val := N.lor (N.shiftl (Byte.to_N a) 16) (N.shiftl (Byte.to_N b) 8) in
      [encodeChar (N.land (N.shiftr val 18) 63);
       encodeChar (N.land (N.shiftr val 12) 63);
       encodeChar (N.land (N.shiftr val 6) 63);
       StdPadding]
  | a :: b :: c :: rest =>
      let val := quantum (Byte.to_N a) (Byte.to_N b) (Byte.to_N c) in
      encodeChar (N.land (N.shiftr val 18) 63)
      :: encodeChar (N.land (N.shiftr val 12) 63)
      :: encodeChar (N.land (N.shiftr val 6) 63)
      :: encodeChar (N.land val 63)
      :: Encode rest
  end.

(** The largest prefix of [p] whose length is a multiple of three, and what
    follows it. *)
Fixpoint splitBlocks (p : list byte) : list byte * list byte :=
  match p with
  | a :: b :: c :: rest =>
      let (blocks, tail) := splitBlocks rest in (a :: b :: c :: blocks, tail)
  | _ => ([], p)
  end.

(** Position of a character in the alphabet ([enc.decodeMap], whose entry
    for a foreign character is the invalid mark). *)
Fixpoint indexOf (c : byte) (alphabet : list byte) (i : N) : option N :=
  match alphabet with
  | [] => None
  | x :: rest => if Byte.eqb x c then Some i else indexOf c rest (N.succ i)
  end.

Definition decodeChar (c : byte) : option N := indexOf c encodeStd 0.

(** One group of four characters, the last one or two of which may be padding
    when [final]: the bytes [val>>16], [val>>8] and [val] of
    [d0<<18 | d1<<12 | d2<<6 | d3]. *)
Definition decodeQuantum (final : bool) (c0 c1 c2 c3 : byte)
  : option (list byte) :=
  match decodeChar c0, decodeChar c1 with
  | Some d0, Some d1 =>
      if final && Byte.eqb c2 StdPadding && Byte.eqb c3 StdPadding then
        let val := N.lor (N.shiftl d0 18) (N.shiftl d1 12) in
        Some [byteOfN (N.shiftr val 16)]
      else
        match decodeChar c2 with
        | Some d2 =>
            if final && Byte.eqb c3 StdPadding then
              let val :=
                N.lor (N.lor (N.shiftl d0 18) (N.shiftl d1 12)) (N.shiftl d2 6) in
              Some [byteOfN (N.shiftr val 16); byteOfN (N.shiftr val 8)]
            else
              match decodeChar c3 with
              | Some d3 =>
                  let val :=
                    N.lor (N.lor (N.lor (N.shiftl d0 18) (N.shiftl d1 12))
                                 (N.shiftl d2 6)) d3 in
                  Some [byteOfN (N.shiftr val 16); byteOfN (N.shiftr val 8);
                        byteOfN val]
              | None => None
              end
        | None => None
        end
  | _, _ => None
  end.

(** [StdEncoding.DecodeString] on padded text without line breaks; any other
    text is refused here. *)
Fixpoint Decode (s : list byte) : option (list byte) :=
  match s with
  | [] => Some []
  | c0 :: c1 :: c2 :: c3 :: rest =>
      match rest with
      | [] => decodeQuantum true c0 c1 c2 c3
      | _ =>
          match decodeQuantum false c0 c1 c2 c3, Decode rest with
          | Some bs, Some more => Some (bs ++ more)
          | _, _ => None
          end
      end
  | _ => None
  end.

(* ----------------------------------------------------------------- *)
(** *** The polling encoder *)

(** Modelled from the spec: the constant [separator] is declared outside the
    files at hand; it is the reserved frame-separator byte, 0x1e, which the
    message of [ErrSeparatorInTextFrame] names too. *)
Definition separator : byte := x1e.

(** Modelled from the spec: [frame.Type], of the package [frame], is declared
    outside the files at hand; a frame is a text frame or a binary frame. *)
Inductive FrameType : Type := Text | Binary.

Definition FrameType_eqb (x y : FrameType) : bool :=
  match x, y with
  | Text, Text | Binary, Binary => true
  | _, _ => false
  end.

(** Modelled from the spec: [bufWriter] is declared outside the files at hand.
    It is the growable byte sequence that holds the frames written so far:
    [WriteByte] and [Write] append and do not fail, [WriteFinishedFrames]
    hands the whole content to the output in one [Write] and clears it. *)
Record bufWriter : Type := mkBufWriter { buf : list byte }.

(** An [io.Writer] given to [WriteFramesTo]: the chunks it has received, one
    per call of its [Write], and the error its [Write] answers with. *)
Record ioWriter : Type := mkIoWriter {
  received : list (list byte);
  answer : option error
}.

Definition ioWrite (w : ioWriter) (p : list byte)
  : ioWriter * (nat * option error) :=
  ({| received := received w ++ [p]; answer := answer w |},
   (match answer w with None => length p | Some _ => O end, answer w)).

Module BufWriter.

Definition WriteByte (w : bufWriter) (b : byte) : bufWriter * option error :=
  ({| buf := buf w ++ [b] |}, None).

Definition Write (w : bufWriter) (p : list byte)
  : bufWriter * (nat * option error) :=
  ({| buf := buf w ++ p |}, (length p, None)).

Definition WriteFinishedFrames (w : bufWriter) (out : ioWriter)
  : bufWriter * ioWriter * (nat * option error) :=
  let (out', r) := ioWrite out (buf w) in
  ({| buf := [] |}, out', r).

End BufWriter.

(** The streaming encoder of [base64.NewEncoder(base64.StdEncoding, w)]: the
    bytes (fewer than three) it holds back until a group is complete.  Its
    destination [w] is the encoder's [bufWriter], passed to each call. *)
Record base64Encoder : Type := mkBase64Encoder {
  err : option error;
  nbuf : list byte
}.

Module Base64Encoder.

Definition NewEncoder : base64Encoder := {| err := None; nbuf := [] |}.

(** [Write]: completes and emits the group held back, emits the complete
    groups of what remains, and holds the last one or two bytes back.  The
    library hands the complete groups to its destination in pieces of at
    most 768 bytes; the destination here only appends, so they are handed
    over in one piece. *)
Definition Write (e : base64Encoder) (w : bufWriter) (p : list byte)
  : base64Encoder * bufWriter * (nat * option error) :=
  match err e with
  | Some er => (e, w, (O, Some er))
  | None =>
      let fill := firstn (3 - length (nbuf e)) p in
      let lead := match nbuf e with [] => [] | _ => fill end in
      let p1 := skipn (length lead) p in
      let held := nbuf e ++ lead in
      if (0 <? length (nbuf e))%nat && (length held <? 3)%nat then
        ({| err := None; nbuf := held |}, w, (length lead, None))
      else
        let '(w1, r1) :=
          match held with
          | [] => (w, (O, None))
          | _ => BufWriter.Write w (Encode held)
          end in
        match snd r1 with
        | Some er => ({| err := Some er; nbuf := held |}, w1,
                      (length lead, Some er))
        | None =>
            let (blocks, tail) := splitBlocks p1 in
            let '(w2, r2) :=
              match blocks with
              | [] => (w1, (O, None))
              | _ => BufWriter.Write w1 (Encode blocks)
              end in
            match snd r2 with
            | Some er => ({| err := Some er; nbuf := [] |}, w2,
                          (length lead, Some er))
            | None => ({| err := None; nbuf := tail |}, w2,
                       (length p, None))
            end
        end
  end.

(** [Close]: emits what is held back, padded. *)
Definition Close (e : base64Encoder) (w : bufWriter)
  : base64Encoder * bufWriter * option error :=
  match err e, nbuf e with
  | None, _ :: _ =>
      let '(w', r) := BufWriter.Write w (Encode (nbuf e)) in
      ({| err := snd r; nbuf := [] |}, w', snd r)
  | _, _ => (e, w, err e)
  end.

End Base64Encoder.

Record encoder : Type := mkEncoder {
  pingTimeout : Z;
  lastPing : Z;
  writer : bufWriter;
  hasFramesChan : bool;
  closed : bool;
  hasNonClosedFrame : Z
}.

Definition set_writer (e : encoder) (w : bufWriter) : encoder :=
  {| pingTimeout := pingTimeout e; lastPing := lastPing e; writer := w;
     hasFramesChan := hasFramesChan e; closed := closed e;
     hasNonClosedFrame := hasNonClosedFrame e |}.

Definition set_hasFramesChan (e : encoder) (full : bool) : encoder :=
  {| pingTimeout := pingTimeout e; lastPing := lastPing e; writer := writer e;
     hasFramesChan := full; closed := closed e;
     hasNonClosedFrame := hasNonClosedFrame e |}.

Definition set_hasNonClosedFrame (e : encoder) (v : Z) : encoder :=
  {| pingTimeout := pingTimeout e; lastPing := lastPing e; writer := writer e;
     hasFramesChan := hasFramesChan e; closed := closed e;
     hasNonClosedFrame := v |}.

Definition set_lastPing (e : encoder) (t : Z) : encoder :=
  {| pingTimeout := pingTimeout e; lastPing := t; writer := writer e;
     hasFramesChan := hasFramesChan e; closed := closed e;
     hasNonClosedFrame := hasNonClosedFrame e |}.

(** A frame writer.  Its [writer], [hasFramesChan] and [hasNonClosedFrame]
    point into the encoder that made it, so its methods take that encoder and
    give it back; what is its own is the base64 encoder of a binary frame. *)
Record frameWriter : Type := mkFrameWriter {
  base64 : option base64Encoder
}.

(** [atomic.CompareAndSwapInt32(&e.hasNonClosedFrame, old, new)]. *)
Definition CompareAndSwapInt32 (e : encoder) (old new : Z) : encoder * bool :=
  if (hasNonClosedFrame e =? old)%Z
  then (set_hasNonClosedFrame e new, true)
  else (e, false).

(** The non-blocking send [select { case ch <- struct{}{}: default: }] on the
    one-slot channel. *)
Definition trySend (e : encoder) : encoder :=
  if hasFramesChan e then e else set_hasFramesChan e true.

Section Polling.

(** The constant [binaryPrefix], the marker byte of a binary frame, is
    declared outside the files at hand: every value is allowed for. *)
Variable binaryPrefix : byte.

Definition NextFrame (e : encoder) (ft : FrameType)
  : encoder * (frameWriter + error) :=
  if closed e then (e, inr EOF)
  else
    let (e1, swapped) := CompareAndSwapInt32 e 0 1 in
    if negb swapped then (e1, inr ErrNonCloseFrame)
    else
      if FrameType_eqb ft Binary then
        let (w', werr) := BufWriter.WriteByte (writer e1) binaryPrefix in
        match werr with
        | Some er => (set_writer e1 w', inr er)
        | None =>
            (set_writer e1 w',
             inl {| base64 := Some Base64Encoder.NewEncoder |})
        end
      else (e1, inl {| base64 := None |}).

End Polling.

(** Which case of the [select] in [WriteFramesTo] ran: a frame was ready, the
    timer fired (at the time given), or the encoder was closed. *)
Inductive selected : Type :=
| FramesReady
| TimerFired (now : Z)
| ClosedFired.

(** [WriteFramesTo], entered at time [start], when the [select] runs the case
    [sel]; [None] when that case cannot run: no frame is ready, the timer of
    [pingTimeout - time.Since(lastPing)] has not expired at [now], or the
    encoder is not closed. *)
Definition WriteFramesTo (e : encoder) (start : Z) (sel : selected)
    (out : ioWriter) : option (encoder * ioWriter * option error) :=
  let timeout := (pingTimeout e - (start - lastPing e))%Z in
  match sel with
  | FramesReady =>
      if hasFramesChan e then
        let e1 := set_hasFramesChan e false in
        let '(w', out', r) := BufWriter.WriteFinishedFrames (writer e1) out in
        match snd r with
        | Some er => Some (set_writer e1 w', out', Some er)
        | None => Some (set_writer e1 w', out', None)
        end
      else None
  | TimerFired now =>
      if (start <=? now)%Z && (start + timeout <=? now)%Z
      then Some (set_lastPing e now, out, Some ErrPingTimeout)
      else None
  | ClosedFired =>
      if closed e then Some (e, out, Some EOF) else None
  end.

(** The base64 text of a binary frame as it stands in the buffer: what is
    between the marker byte and the separator. *)
Definition base64Portion (frame : list byte) : list byte :=
  removelast (tl frame).

Module FrameWriter.

(** The loop of [Write] over the bytes of [b]. *)
Fixpoint hasSeparator (b : list byte) : bool :=
  match b with
  | [] => false
  | by_ :: rest => if Byte.eqb by_ separator then true else hasSeparator rest
  end.

Definition Write (w : frameWriter) (e : encoder) (b : list byte)
  : frameWriter * encoder * (nat * option error) :=
  match base64 w with
  | Some enc =>
      let '(enc', bw, r) := Base64Encoder.Write enc (writer e) b in
      ({| base64 := Some enc' |}, set_writer e bw, r)
  | None =>
      if hasSeparator b then (w, e, (O, Some ErrSeparatorInTextFrame))
      else
        let (bw, r) := BufWriter.Write (writer e) b in
        (w, set_writer e bw, r)
  end.

Definition WriteByte (w : frameWriter) (e : encoder) (b : byte)
  : frameWriter * encoder * option error :=
  let (bw, r) := BufWriter.WriteByte (writer e) b in
  (w, set_writer e bw, r).

Definition Close (w : frameWriter) (e : encoder)
  : frameWriter * encoder * option error :=
  let (w1, e1) :=
    match base64 w with
    | Some enc =>
        let '(enc', bw, _) := Base64Encoder.Close enc (writer e) in
        ({| base64 := Some enc' |}, set_writer e bw)
    | None => (w, e)
    end in
  let (bw, werr) := BufWriter.WriteByte (writer e1) separator in
  let e2 := set_writer e1 bw in
  match werr with
  | Some er => (w1, e2, Some er)
  | None =>
      let e3 := set_hasNonClosedFrame e2 0 in
      (w1, trySend e3, None)
  end.

(** Successive [Write]s of the chunks of [ps]; stops at the first error. *)
Fixpoint WriteAll (w : frameWriter) (e : encoder) (ps : list (list byte))
  : frameWriter * encoder * option error :=
  match ps with
  | [] => (w, e, None)
  | p :: rest =>
      let '(w', e', r) := Write w e p in
      match snd r with
      | Some er => (w', e', Some er)
      | None => WriteAll w' e' rest
      end
  end.

End FrameWriter.

(* ----------------------------------------------------------------- *)
(** *** The client *)

(** A [float64] bound on attempts: a number, or the infinity [NewClient]
    stores by default. *)
Inductive limit : Type :=
| Finite (x : Q)
| Infinity.

(** [attempts >= bound]. *)
Definition reached (attempts : nat) (bound : limit) : bool :=
  match bound with
  | Finite x => Qle_bool x (inject_Z (Z.of_nat attempts))
  | Infinity => false
  end.

(** The fields of [Client] that [reconnect], [Connect] and [Close] read or
    write.  [conn] is the connection in use, named by the number of the dial
    that made it; [rootOnError] says whether the root namespace has an error
    handler. *)
Record Client : Type := mkClient {
  conn : option nat;
  rootOnError : bool;
  retryStrategy : RetryStrategy;
  reconnection : bool;
  reconnecting : bool;
  reconnectionAttempts : limit
}.

Definition set_conn (c : Client) (k : option nat) : Client :=
  {| conn := k; rootOnError := rootOnError c;
     retryStrategy := retryStrategy c; reconnection := reconnection c;
     reconnecting := reconnecting c;
     reconnectionAttempts := reconnectionAttempts c |}.

Definition set_retryStrategy (c : Client) (b : RetryStrategy) : Client :=
  {| conn := conn c; rootOnError := rootOnError c;
     retryStrategy := b; reconnection := reconnection c;
     reconnecting := reconnecting c;
     reconnectionAttempts := reconnectionAttempts c |}.

Definition set_reconnecting (c : Client) (v : bool) : Client :=
  {| conn := conn c; rootOnError := rootOnError c;
     retryStrategy := retryStrategy c; reconnection := reconnection c;
     reconnecting := v;
     reconnectionAttempts := reconnectionAttempts c |}.

(** What one call of [Connect] meets: the dial fails, the dial succeeds and
    [connectClient] fails, or both succeed. *)
Inductive connectOutcome : Type :=
| DialFails (e : error)
| HandshakeFails (e : error)
| Connects.

(** What the client does to the outside, in order of time. *)
Inductive event : Type :=
| Sleep (d : Z)                (* time.Sleep(d) *)
| Dial                         (* dialer.Dial(c.url, nil) *)
| Tasks                        (* the three goroutines of a connection start *)
| OnError (e : error)          (* the root namespace's error handler runs *)
| ConnClose (k : option nat).  (* c.conn.Close() *)

(** The outside: what the [n]th call of [Connect] meets, the [n]th value of
    [rand.Float64()], what [c.conn.Close()] answers, how many of each were
    used, and the events so far (oldest first). *)
Record World : Type := mkWorld {
  outcomes : nat -> connectOutcome;
  draws : nat -> Q;
  closeAnswer : option error;
  connects : nat;
  drawn : nat;
  trace : list event
}.

Definition emit (w : World) (ev : event) : World :=
  {| outcomes := outcomes w; draws := draws w; closeAnswer := closeAnswer w;
     connects := connects w; drawn := drawn w; trace := trace w ++ [ev] |}.

Definition nextConnect (w : World) : World :=
  {| outcomes := outcomes w; draws := draws w; closeAnswer := closeAnswer w;
     connects := S (connects w); drawn := drawn w; trace := trace w |}.

Definition nextDraw (w : World) : World :=
  {| outcomes := outcomes w; draws := draws w; closeAnswer := closeAnswer w;
     connects := connects w; drawn := S (drawn w); trace := trace w |}.

(** How a call ended within the steps allowed: it returned, or it was still
    running. *)
Inductive status : Type :=
| Returned (e : option error)
| Running.

Definition ErrReconnectFailed : error :=
  New "reconnect failed: reconnect times more than reconnect attempts".

(** [time.Duration(delay)]: a float becomes a whole number of nanoseconds. *)
Definition toDuration (delay : Q) : Z :=
  Z.quot (Qnum delay) (Z.pos (Qden delay)).

(** [c.retryStrategy.Duration()]: a draw is used up only with jitter on. *)
Definition drawDuration (c : Client) (w : World) : Q * Client * World :=
  let (delay, b') := Duration (retryStrategy c) (draws w (drawn w)) in
  (delay, set_retryStrategy c b',
   if Qgt0 (jitter (retryStrategy c)) then nextDraw w else w).

(** [reconnect], the loop inside it, [Connect] and [Close] call one another;
    [fuel] bounds the depth of calls and the rounds of the loop, and a call
    that has none left is [Running]. *)
Fixpoint reconnect (fuel : nat) (c : Client) (w : World)
  : Client * World * status :=
  match fuel with
  | O => (c, w, Running)
  | S fuel' =>
      if reconnecting c then (c, w, Returned None)
      else if reached (attempts (retryStrategy c)) (reconnectionAttempts c)
      then
        let c1 := set_retryStrategy c (Reset (retryStrategy c)) in
        let c2 := set_reconnecting c1 false in
        (c2, w, Returned (Some ErrReconnectFailed))
      else
        let '(delay, c1, w1) := drawDuration c w in
        let c2 := set_reconnecting c1 true in
        reconnectLoop fuel' delay c2 w1
  end
with reconnectLoop (fuel : nat) (delay : Q) (c : Client) (w : World)
  : Client * World * status :=
  match fuel with
  | O => (c, w, Running)
  | S fuel' =>
      let w1 := emit w (Sleep (toDuration delay)) in
      let '(c1, w2, st) := Connect fuel' c w1 in
      match st with
      | Running => (c1, w2, Running)
      | Returned None =>
          let c2 := set_retryStrategy c1 (Reset (retryStrategy c1)) in
          let c3 := set_reconnecting c2 false in
          (c3, w2, Returned None)
      | Returned (Some _) =>
          let c2 := set_reconnecting c1 false in
          reconnectLoop fuel' delay c2 w2
      end
  end
with Connect (fuel : nat) (c : Client) (w : World)
  : Client * World * status :=
  match fuel with
  | O => (c, w, Running)
  | S fuel' =>
      let w1 := nextConnect (emit w Dial) in
      match outcomes w (connects w) with
      | DialFails e => (c, w1, Returned (Some e))
      | HandshakeFails e =>
          let c1 := set_conn c (Some (connects w)) in
          let '(c2, w2, st) := Close fuel' c1 w1 in
          match st with
          | Running => (c2, w2, Running)
          | Returned _ =>
              let w3 := if rootOnError c2 then emit w2 (OnError e) else w2 in
              (c2, w3, Returned (Some e))
          end
      | Connects =>
          let c1 := set_conn c (Some (connects w)) in
          (c1, emit w1 Tasks, Returned None)
      end
  end
with Close (fuel : nat) (c : Client) (w : World)
  : Client * World * status :=
  match fuel with
  | O => (c, w, Running)
  | S fuel' =>
      if reconnection c then
        let c1 := set_retryStrategy c (Reset (retryStrategy c)) in
        let c2 := set_reconnecting c1 false in
        reconnect fuel' c2 w
      else (c, emit w (ConnClose (conn c)), Returned (closeAnswer w))
  end.

(** How many times [Connect] dialled, how often the client slept and how
    often the connection was closed, in a trace. *)
Definition isDial (ev : event) : bool :=
  match ev with Dial => true | _ => false end.


Definition isConnClose (ev : event) : bool :=
  match ev with ConnClose _ => true | _ => false end.

Definition count (p : event -> bool) (t : list event) : nat :=
  length (filter p t).

(** The backoff [NewClient] configures: three seconds, at most ten, doubling,
    jitter one half (delays are in nanoseconds). *)
Definition defaultBackoff : RetryStrategy :=
  NewBackOff {| ms := 3000000000; max := 10000000000; factor := 2;
                jitter := 1 # 2; attempts := 0 |}.

(** The client [NewClient] returns for an address it accepts, before any
    connection and with no handler registered. *)
Definition freshClient : Client :=
  {| conn := None;
     rootOnError := false;
     retryStrategy := defaultBackoff;
     reconnection := true;
     reconnecting := false;
     reconnectionAttempts := Infinity |}.

(** Sample clients and worlds. *)
Definition ErrDial : error := New "dial failed".

Definition failsOnce (n : nat) : connectOutcome :=
  match n with
  | O => DialFails ErrDial
  | S _ => Connects
  end.

Definition neverConnects (n : nat) : connectOutcome := DialFails ErrDial.

Definition quietWorld (o : nat -> connectOutcome) : World :=
  {| outcomes := o; draws := fun _ => 0; closeAnswer := None;
     connects := 0; drawn := 0; trace := [] |}.

(** A client that allows three attempts and has made three. *)
Definition spentClient : Client :=
  {| conn := Some 0%nat;
     rootOnError := false;
     retryStrategy := set_attempts defaultBackoff 3;
     reconnection := true;
     reconnecting := false;
     reconnectionAttempts := Finite 3 |}.

(** A client with a connection and reconnection disabled. *)
Definition connectedClient : Client :=
  {| conn := Some 0%nat;
     rootOnError := false;
     retryStrategy := defaultBackoff;
     reconnection := false;
     reconnecting := false;
     reconnectionAttempts := Infinity |}.

(* ----------------------------------------------------------------- *)
(** *** Predicates and sample values used in the statements *)

(** The scenario of the specification: base 100, factor 2, no jitter, ceiling
    100000 gives 100, 200, 400, 800. *)
Definition scenarioBackoff : RetryStrategy :=
  NewBackOff {| ms := 100; max := 100000; factor := 2; jitter := 0;
                attempts := 0 |}.

(** Nothing a writer does before [Close] touches the exclusivity flag, the
    channels or the clock of its encoder. *)
Definition sameControl (e e' : encoder) : Prop :=
  pingTimeout e' = pingTimeout e /\ lastPing e' = lastPing e /\
  hasFramesChan e' = hasFramesChan e /\ closed e' = closed e /\
  hasNonClosedFrame e' = hasNonClosedFrame e.

Definition textWriter : frameWriter := {| base64 := None |}.

(** An encoder that holds one finished frame and one open writer. *)
Definition busyEncoder : encoder :=
  {| pingTimeout := 25000; lastPing := 0;
     writer := {| buf := ["a"%byte; separator] |};
     hasFramesChan := true; closed := false; hasNonClosedFrame := 1 |}.

Definition closedEncoder : encoder :=
  {| pingTimeout := 25000; lastPing := 0; writer := {| buf := [] |};
     hasFramesChan := false; closed := true; hasNonClosedFrame := 0 |}.

Definition freeEncoder : encoder :=
  {| pingTimeout := 25000; lastPing := 0; writer := {| buf := [] |};
     hasFramesChan := false; closed := false; hasNonClosedFrame := 0 |}.

Definition emptyOutput : ioWriter := {| received := []; answer := None |}.

Definition sextets : list N := map N.of_nat (seq 0 64).

(** What a binary frame's writer holds after it was given [given] in any
    number of pieces: the buffer has grown from [before] by the encoding of
    the complete groups of [given], the rest is held back. *)
Definition streamed (before given : list byte) (w : frameWriter) (e : encoder)
  : Prop :=
  base64 w = Some {| err := None; nbuf := snd (splitBlocks given) |} /\
  buf (writer e) = before ++ Encode (fst (splitBlocks given)).




(* ----------------------------------------------------------------- *)
(** *** Further code, predicates and sample values *)


(** [WaitFrameClose]: with no writer open it returns at once; otherwise it
    takes the signal of a close and posts it again.  [None] when it has to
    wait: a writer is open and no signal is there. *)
Definition WaitFrameClose (e : encoder) : option encoder :=
  if (hasNonClosedFrame e =? 0)%Z then Some e
  else if hasFramesChan e
       then Some (trySend (set_hasFramesChan e false))
       else None.

(** The chunks a text frame's writer accepts of [ps] when they are written
    one after the other until one is refused. *)
Fixpoint accepted (ps : list (list byte)) : list (list byte) :=
  match ps with
  | [] => []
  | p :: rest =>
      if FrameWriter.hasSeparator p then [] else p :: accepted rest
  end.

(** A frame to write: its kind and the chunks of its payload. *)
Definition frame : Type := (FrameType * list (list byte))%type.

(** A frame is well formed when it is binary or none of its chunks has the
    separator in it. *)
Definition wellFormed (f : frame) : bool :=
  match fst f with
  | Binary => true
  | Text => forallb (fun p => negb (FrameWriter.hasSeparator p)) (snd f)
  end.

(** The bytes of a frame in the buffer. *)
Definition wire (binaryPrefix : byte) (f : frame) : list byte :=
  match fst f with
  | Binary => [binaryPrefix] ++ Encode (concat (snd f)) ++ [separator]
  | Text => concat (snd f) ++ [separator]
  end.

(** One frame from [NextFrame] to [Close]: open, write every chunk, close;
    the first error ends it. *)
Definition writeFrame (binaryPrefix : byte) (e : encoder) (f : frame)
  : encoder * option error :=
  match NextFrame binaryPrefix e (fst f) with
  | (e1, inr er) => (e1, Some er)
  | (e1, inl w1) =>
      match FrameWriter.WriteAll w1 e1 (snd f) with
      | (w2, e2, Some er) => (e2, Some er)
      | (w2, e2, None) =>
          let '(_, e3, r) := FrameWriter.Close w2 e2 in (e3, r)
      end
  end.

(** Frames one after the other, until one fails. *)
Fixpoint writeFrames (binaryPrefix : byte) (e : encoder) (fs : list frame)
  : encoder * option error :=
  match fs with
  | [] => (e, None)
  | f :: rest =>
      match writeFrame binaryPrefix e f with
      | (e', Some er) => (e', Some er)
      | (e', None) => writeFrames binaryPrefix e' rest
      end
  end.

(** What an encoder may do between two ping timeouts: open a frame, write to
    it, close it, wait for a close, or run [WriteFramesTo] to an end other
    than the timeout. *)
Inductive quietStep (binaryPrefix : byte) : encoder -> encoder -> Prop :=
| stepNextFrame e ft e' r :
    NextFrame binaryPrefix e ft = (e', r) -> quietStep binaryPrefix e e'
| stepWrite w e p w' e' r :
    FrameWriter.Write w e p = (w', e', r) -> quietStep binaryPrefix e e'
| stepWriteByte w e b w' e' r :
    FrameWriter.WriteByte w e b = (w', e', r) -> quietStep binaryPrefix e e'
| stepClose w e w' e' r :
    FrameWriter.Close w e = (w', e', r) -> quietStep binaryPrefix e e'
| stepWait e e' :
    WaitFrameClose e = Some e' -> quietStep binaryPrefix e e'
| stepFlush e start out e' out' r :
    WriteFramesTo e start FramesReady out = Some (e', out', r) ->
    quietStep binaryPrefix e e'
| stepClosed e start out e' out' r :
    WriteFramesTo e start ClosedFired out = Some (e', out', r) ->
    quietStep binaryPrefix e e'.

Inductive quietSteps (binaryPrefix : byte) : encoder -> encoder -> Prop :=
| quietNone e : quietSteps binaryPrefix e e
| quietMore e1 e2 e3 :
    quietStep binaryPrefix e1 e2 -> quietSteps binaryPrefix e2 e3 ->
    quietSteps binaryPrefix e1 e3.

Definition sampleFrames : list frame :=
  [(Text, [list_byte_of_string "abc"]);
   (Binary, [list_byte_of_string "he"; list_byte_of_string "llo"]);
   (Text, [])].

Definition isTasks (ev : event) : bool :=
  match ev with Tasks => true | _ => false end.

(** What [reconnect], [Connect] and [Close] leave alone, and what they only
    add to: the switches and bounds of the client and the settings of its
    backoff stay, the outside answers as before, and the trace, the number of
    connects and the number of draws only grow. *)
Definition extends (c : Client) (w : World) (r : Client * World * status)
  : Prop :=
  let c' := fst (fst r) in
  let w' := snd (fst r) in
  reconnection c' = reconnection c /\
  reconnectionAttempts c' = reconnectionAttempts c /\
  rootOnError c' = rootOnError c /\
  Reset (retryStrategy c') = Reset (retryStrategy c) /\
  outcomes w' = outcomes w /\ draws w' = draws w /\
  closeAnswer w' = closeAnswer w /\
  (connects w <= connects w')%nat /\ (drawn w <= drawn w')%nat /\
  exists t, trace w' = trace w ++ t.

(** A wait is a first delay of the backoff [b] when it is what [Duration]
    returns at [attempts = 0] for one of the draws. *)
Definition firstDelay (b : RetryStrategy) (dr : nat -> Q) (ev : event) : Prop :=
  match ev with
  | Sleep d => exists i, d = toDuration (fst (Duration (Reset b) (dr i)))
  | _ => True
  end.

(** How the handler that [OnDisconnect] installs ended. *)
Inductive handlerStatus : Type :=
| Done
| Panicked (e : error)
| Unfinished.

(** The handler [OnDisconnect] installs for the user's [f]: it runs [f], and
    then, with reconnection enabled, it calls [reconnect] and panics on its
    error.  [f] is given as what it does to the client and the outside. *)
Definition disconnectHandler (f : Client -> World -> Client * World)
    (fuel : nat) (c : Client) (w : World) : Client * World * handlerStatus :=
  let (c1, w1) := f c w in
  if reconnection c1 then
    let '(c', w', st) := reconnect fuel c1 w1 in
    match st with
    | Returned (Some er) => (c', w', Panicked er)
    | Returned None => (c', w', Done)
    | Running => (c', w', Unfinished)
    end
  else (c1, w1, Done).

(** A dialer whose first handshake fails and that connects afterwards. *)
Definition handshakeFailsOnce (n : nat) : connectOutcome :=
  match n with
  | O => HandshakeFails ErrDial
  | S _ => Connects
  end.

(** A client at rest: no attempt is counted, no reconnection is in flight,
    and the bound allows a first attempt. *)
Definition atRest (c : Client) : Prop :=
  attempts (retryStrategy c) = 0%nat /\
  reconnecting c = false /\
  reached 0 (reconnectionAttempts c) = false.

(** All that a call has added to the trace are first delays of the client's
    backoff, as far as it waited at all. *)
Definition waitsFirstDelays (c : Client) (w : World)
    (r : Client * World * status) : Prop :=
  exists t,
    trace (snd (fst r)) = trace w ++ t /\
    Forall (firstDelay (retryStrategy c) (draws w)) t.

(** A dialer that fails at every call. *)
Definition alwaysFails (o : nat -> connectOutcome) : Prop :=
  forall i, exists e, o i = DialFails e.

(** A client that allows three attempts and has made none. *)
Definition threeAttemptsClient : Client :=
  {| conn := Some 0%nat;
     rootOnError := false;
     retryStrategy := defaultBackoff;
     reconnection := true;
     reconnecting := false;
     reconnectionAttempts := Finite 3 |}.

(* ================================================================= *)
(** ** Part II: properties *)
(* ================================================================= *)

(* ----------------------------------------------------------------- *)
(** *** RetryStrategy *)

Section Backoff.

Variable b : RetryStrategy.




Lemma Qgt0_true (x : Q) : Qgt0 x = true -> 0 < x.
Proof.
  unfold Qgt0. intros H. apply negb_true_iff in H.
  apply Qnot_le_lt. intros Hle. apply Qle_bool_iff in Hle. congruence.
Qed.

End Backoff.



(** The default backoff at two draws: 0.7 adds the deviation, 0.4 takes it
    away. *)
Example Duration_default_adds :
  fst (Duration defaultBackoff (7 # 10)) == 4050000000.
Proof. vm_compute. reflexivity. Qed.

Example Duration_default_subtracts :
  fst (Duration defaultBackoff (4 # 10)) == 2400000000.
Proof. vm_compute. reflexivity. Qed.

(** [Reset] puts the counter back, so the next delay is the first one. *)
Example Duration_after_Reset :
  nthDuration 0 (fun _ => 0)
    (Reset (afterCalls 3 (fun _ => 0) scenarioBackoff)) == 100.
Proof. vm_compute. reflexivity. Qed.

(** With a jitter fraction above one the deviation can exceed the candidate,
    and the delay is negative: base 100, jitter 2, draw 0.8. *)
Example Duration_negative_beyond_unit_jitter :
  fst (Duration (SetJitter scenarioBackoff 2) (8 # 10)) == - (60).
Proof. vm_compute. reflexivity. Qed.







(* ----------------------------------------------------------------- *)
(** *** The frame writer and the encoder *)

Lemma hasSeparator_In (b : list byte) :
  FrameWriter.hasSeparator b = true <-> In separator b.
Proof.
  induction b as [|x rest IH]; simpl.
  - split; [discriminate | tauto].
  - destruct (Byte.eqb x separator) eqn:E.
    + apply Byte.byte_dec_bl in E. tauto.
    + apply Byte.eqb_false in E. rewrite IH. tauto.
Qed.

Lemma sameControl_refl (e : encoder) : sameControl e e.
Proof. repeat split. Qed.

Lemma sameControl_trans (e1 e2 e3 : encoder) :
  sameControl e1 e2 -> sameControl e2 e3 -> sameControl e1 e3.
Proof.
  unfold sameControl. intros (A1 & A2 & A3 & A4 & A5) (B1 & B2 & B3 & B4 & B5).
  repeat split; congruence.
Qed.

Lemma sameControl_set_writer (e : encoder) (w : bufWriter) :
  sameControl e (set_writer e w).
Proof. repeat split. Qed.

Lemma Write_sameControl (w : frameWriter) (e : encoder) (b : list byte) :
  sameControl e (snd (fst (FrameWriter.Write w e b))).
Proof.
  unfold FrameWriter.Write. destruct (base64 w) as [enc|].
  - destruct (Base64Encoder.Write enc (writer e) b) as [[enc' bw] r].
    apply sameControl_set_writer.
  - destruct (FrameWriter.hasSeparator b); [apply sameControl_refl|].
    apply sameControl_set_writer.
Qed.

Lemma WriteAll_sameControl (ps : list (list byte)) :
  forall (w : frameWriter) (e : encoder),
    sameControl e (snd (fst (FrameWriter.WriteAll w e ps))).
Proof.
  induction ps as [|p rest IH]; intros w e; simpl.
  - apply sameControl_refl.
  - pose proof (Write_sameControl w e p) as H.
    destruct (FrameWriter.Write w e p) as [[w' e'] r]. simpl in H.
    destruct (snd r); [exact H|].
    eapply sameControl_trans; [exact H | apply IH].
Qed.

Lemma Write_text_separator (w : frameWriter) (e : encoder) (b : list byte) :
  base64 w = None ->
  In separator b ->
  FrameWriter.Write w e b = (w, e, (O, Some ErrSeparatorInTextFrame)).
Proof.
  intros Htext Hin. apply hasSeparator_In in Hin.
  unfold FrameWriter.Write. now rewrite Htext, Hin.
Qed.

(** C4. A [Write] of bytes among which the separator occurs, on a text
    frame's writer, answers with no byte written and the
    separator-in-text-frame error, and leaves the writer and the whole
    encoder, its buffer included, as they were. *)
Theorem Write_separator_rejected
    (w : frameWriter) (e : encoder) (b : list byte) :
  base64 w = None ->
  In separator b ->
  FrameWriter.Write w e b = (w, e, (O, Some ErrSeparatorInTextFrame)) /\
  buf (writer (snd (fst (FrameWriter.Write w e b)))) = buf (writer e).
Proof.
  intros Htext Hin. rewrite (Write_text_separator w e b Htext Hin).
  split; reflexivity.
Qed.

Lemma Write_separator_rejected_witness :
  FrameWriter.Write textWriter busyEncoder ["x"%byte; separator; "y"%byte]
  = (textWriter, busyEncoder, (O, Some ErrSeparatorInTextFrame)) /\
  buf (writer (snd (fst (FrameWriter.Write textWriter busyEncoder
                           ["x"%byte; separator; "y"%byte]))))
  = buf (writer busyEncoder).
Proof.
  apply (@Write_separator_rejected textWriter busyEncoder
           ["x"%byte; separator; "y"%byte]).
  - reflexivity.
  - simpl. tauto.
Defined.

(** C10. [WriteByte] appends its byte to the shared buffer and reports no
    error, whatever the byte: on a text frame's writer the separator itself
    is appended, where [Write] of that one byte is refused. *)
Theorem WriteByte_unchecked (w : frameWriter) (e : encoder) (b : byte) :
  base64 w = None ->
  FrameWriter.WriteByte w e b
  = (w, set_writer e {| buf := buf (writer e) ++ [b] |}, None) /\
  FrameWriter.WriteByte w e separator
  = (w, set_writer e {| buf := buf (writer e) ++ [separator] |}, None) /\
  FrameWriter.Write w e [separator]
  = (w, e, (O, Some ErrSeparatorInTextFrame)).
Proof.
  intros Htext. split; [reflexivity|]. split; [reflexivity|].
  apply Write_text_separator; [assumption | simpl; tauto].
Qed.

Lemma WriteByte_unchecked_witness :
  FrameWriter.WriteByte textWriter busyEncoder "z"%byte
  = (textWriter,
     set_writer busyEncoder {| buf := ["a"%byte; separator; "z"%byte] |},
     None) /\
  FrameWriter.WriteByte textWriter busyEncoder separator
  = (textWriter,
     set_writer busyEncoder {| buf := ["a"%byte; separator; separator] |},
     None) /\
  FrameWriter.Write textWriter busyEncoder [separator]
  = (textWriter, busyEncoder, (O, Some ErrSeparatorInTextFrame)).
Proof.
  apply (@WriteByte_unchecked textWriter busyEncoder "z"%byte).
  reflexivity.
Defined.

Section Exclusivity.

Variable binaryPrefix : byte.

Lemma NextFrame_closed (e : encoder) (ft : FrameType) :
  closed e = true -> NextFrame binaryPrefix e ft = (e, inr EOF).
Proof. intros H. unfold NextFrame. now rewrite H. Qed.

Lemma NextFrame_held (e : encoder) (ft : FrameType) :
  closed e = false -> hasNonClosedFrame e <> 0%Z ->
  NextFrame binaryPrefix e ft = (e, inr ErrNonCloseFrame).
Proof.
  intros Hc Hf. unfold NextFrame, CompareAndSwapInt32. rewrite Hc.
  destruct (hasNonClosedFrame e =? 0)%Z eqn:E; [|reflexivity].
  apply Z.eqb_eq in E. contradiction.
Qed.

Lemma NextFrame_free (e : encoder) (ft : FrameType) :
  closed e = false -> hasNonClosedFrame e = 0%Z ->
  exists e1 w1,
    NextFrame binaryPrefix e ft = (e1, inl w1) /\
    closed e1 = false /\ hasNonClosedFrame e1 = 1%Z /\
    hasFramesChan e1 = hasFramesChan e /\
    buf (writer e1)
    = buf (writer e) ++ (if FrameType_eqb ft Binary then [binaryPrefix] else []) /\
    base64 w1
    = (if FrameType_eqb ft Binary then Some Base64Encoder.NewEncoder else None).
Proof.
  intros Hc Hf. unfold NextFrame, CompareAndSwapInt32. rewrite Hc, Hf. simpl.
  destruct (FrameType_eqb ft Binary); simpl.
  - eexists _, _. split; [reflexivity|]. simpl. repeat split; assumption.
  - eexists _, _. split; [reflexivity|]. simpl. rewrite app_nil_r.
    repeat split; assumption.
Qed.

Lemma Close_releases (w : frameWriter) (e : encoder) :
  exists w' e',
    FrameWriter.Close w e = (w', e', None) /\
    closed e' = closed e /\ hasNonClosedFrame e' = 0%Z /\
    hasFramesChan e' = true.
Proof.
  unfold FrameWriter.Close.
  destruct (base64 w) as [enc|].
  - destruct (Base64Encoder.Close enc (writer e)) as [[enc' bw] r]. simpl.
    unfold trySend. simpl.
    destruct (hasFramesChan e) eqn:E; eexists _, _;
      (split; [reflexivity|]); simpl; auto.
  - simpl. unfold trySend. simpl.
    destruct (hasFramesChan e) eqn:E; eexists _, _;
      (split; [reflexivity|]); simpl; auto.
Qed.

End Exclusivity.

(** C5. [NextFrame] on an encoder whose closed signal has fired answers
    [io.EOF].  On one that is not closed and has a writer that was not
    closed yet it answers the reuse-violation error.  And on one that is
    not closed and free: the first call gives a writer; whatever is written
    through it, a second call fails with the reuse-violation error as long as
    that writer is open; [Close] of the writer succeeds, and the call after
    it gives a writer again. *)
Theorem NextFrame_exclusive (binaryPrefix : byte) (e : encoder)
    (ft ft' : FrameType) (ps : list (list byte)) :
  (closed e = true -> NextFrame binaryPrefix e ft = (e, inr EOF)) /\
  (closed e = false -> hasNonClosedFrame e <> 0%Z ->
   NextFrame binaryPrefix e ft = (e, inr ErrNonCloseFrame)) /\
  (closed e = false -> hasNonClosedFrame e = 0%Z ->
   exists e1 w1,
     NextFrame binaryPrefix e ft = (e1, inl w1) /\
     NextFrame binaryPrefix e1 ft' = (e1, inr ErrNonCloseFrame) /\
     let '(w2, e2, _) := FrameWriter.WriteAll w1 e1 ps in
     NextFrame binaryPrefix e2 ft' = (e2, inr ErrNonCloseFrame) /\
     exists w3 e3,
       FrameWriter.Close w2 e2 = (w3, e3, None) /\
       exists e4 w4, NextFrame binaryPrefix e3 ft' = (e4, inl w4)).
Proof.
  split; [apply NextFrame_closed|]. split; [apply NextFrame_held|].
  intros Hc Hf.
  destruct (NextFrame_free binaryPrefix e ft Hc Hf)
    as (e1 & w1 & Hnext & Hc1 & Hf1 & _).
  exists e1, w1. split; [exact Hnext|].
  split; [apply NextFrame_held; [assumption | rewrite Hf1; discriminate]|].
  pose proof (WriteAll_sameControl ps w1 e1) as Hsame.
  destruct (FrameWriter.WriteAll w1 e1 ps) as [[w2 e2] r]. simpl in Hsame.
  destruct Hsame as (_ & _ & _ & Hc2 & Hf2).
  split.
  - apply NextFrame_held; [congruence | rewrite Hf2, Hf1; discriminate].
  - destruct (Close_releases w2 e2) as (w3 & e3 & Hclose & Hc3 & Hf3 & _).
    exists w3, e3. split; [exact Hclose|].
    destruct (NextFrame_free binaryPrefix e3 ft' ) as (e4 & w4 & H4 & _);
      [congruence | assumption |].
    now exists e4, w4.
Qed.

Lemma NextFrame_exclusive_witness :
  NextFrame "b" closedEncoder Text = (closedEncoder, inr EOF) /\
  NextFrame "b" busyEncoder Binary = (busyEncoder, inr ErrNonCloseFrame) /\
  exists e1 w1,
    NextFrame "b" freeEncoder Text = (e1, inl w1) /\
    NextFrame "b" e1 Binary = (e1, inr ErrNonCloseFrame) /\
    let '(w2, e2, _) := FrameWriter.WriteAll w1 e1 [["h"%byte; "i"%byte]] in
    NextFrame "b" e2 Binary = (e2, inr ErrNonCloseFrame) /\
    exists w3 e3,
      FrameWriter.Close w2 e2 = (w3, e3, None) /\
      exists e4 w4, NextFrame "b" e3 Binary = (e4, inl w4).
Proof.
  split; [|split].
  - apply (NextFrame_exclusive "b" closedEncoder Text Text []). reflexivity.
  - apply (NextFrame_exclusive "b" busyEncoder Binary Binary []).
    + reflexivity.
    + discriminate.
  - apply (NextFrame_exclusive "b" freeEncoder Text Binary
             [["h"%byte; "i"%byte]]); reflexivity.
Defined.

(** C7. [WriteFramesTo] ends in one of three ways, by the case its [select]
    runs.  A frame is ready: the signal is taken, the whole buffer goes to
    the output in one [Write], the buffer is empty afterwards, and the answer
    is that [Write]'s.  The timer of [pingTimeout - (start - lastPing)] has
    expired: [lastPing] becomes the present time, nothing else changes, and
    the answer is the ping-timeout error.  The encoder is closed: nothing
    changes and the answer is [io.EOF].  There is no fourth way. *)
Theorem WriteFramesTo_outcomes (e : encoder) (start : Z) (out : ioWriter) :
  (hasFramesChan e = true ->
   WriteFramesTo e start FramesReady out
   = Some (set_writer (set_hasFramesChan e false) {| buf := [] |},
           {| received := received out ++ [buf (writer e)];
              answer := answer out |},
           answer out)) /\
  (forall now : Z,
     (start <= now)%Z ->
     (start + (pingTimeout e - (start - lastPing e)) <= now)%Z ->
     WriteFramesTo e start (TimerFired now) out
     = Some (set_lastPing e now, out, Some ErrPingTimeout)) /\
  (closed e = true ->
   WriteFramesTo e start ClosedFired out = Some (e, out, Some EOF)) /\
  (forall (sel : selected) (r : encoder * ioWriter * option error),
     WriteFramesTo e start sel out = Some r ->
     r = (set_writer (set_hasFramesChan e false) {| buf := [] |},
          {| received := received out ++ [buf (writer e)];
             answer := answer out |},
          answer out) \/
     (exists now : Z, r = (set_lastPing e now, out, Some ErrPingTimeout)) \/
     r = (e, out, Some EOF)).
Proof.
  assert (Hready : hasFramesChan e = true ->
    WriteFramesTo e start FramesReady out
    = Some (set_writer (set_hasFramesChan e false) {| buf := [] |},
            {| received := received out ++ [buf (writer e)];
               answer := answer out |},
            answer out)).
  { intros H. unfold WriteFramesTo. rewrite H.
    unfold BufWriter.WriteFinishedFrames, ioWrite. simpl.
    destruct (answer out); reflexivity. }
  split; [exact Hready|]. split; [|split].
  - intros now H1 H2. unfold WriteFramesTo.
    apply Z.leb_le in H1. apply Z.leb_le in H2. now rewrite H1, H2.
  - intros H. unfold WriteFramesTo. now rewrite H.
  - intros sel r H. destruct sel as [|now|].
    + left. destruct (hasFramesChan e) eqn:E.
      * rewrite (Hready eq_refl) in H. congruence.
      * unfold WriteFramesTo in H. rewrite E in H. discriminate.
    + right; left. unfold WriteFramesTo in H.
      destruct ((start <=? now)%Z && _); [|discriminate].
      exists now. congruence.
    + right; right. unfold WriteFramesTo in H.
      destruct (closed e); [|discriminate]. congruence.
Qed.

Lemma WriteFramesTo_outcomes_witness :
  WriteFramesTo busyEncoder 10 FramesReady emptyOutput
  = Some (set_writer (set_hasFramesChan busyEncoder false) {| buf := [] |},
          {| received := [["a"%byte; separator]]; answer := None |},
          None) /\
  WriteFramesTo busyEncoder 10 (TimerFired 25000) emptyOutput
  = Some (set_lastPing busyEncoder 25000, emptyOutput, Some ErrPingTimeout) /\
  WriteFramesTo closedEncoder 10 ClosedFired emptyOutput
  = Some (closedEncoder, emptyOutput, Some EOF).
Proof.
  split; [|split].
  - apply (WriteFramesTo_outcomes busyEncoder 10 emptyOutput). reflexivity.
  - apply (WriteFramesTo_outcomes busyEncoder 10 emptyOutput); simpl; lia.
  - apply (WriteFramesTo_outcomes closedEncoder 10 emptyOutput). reflexivity.
Defined.

(* ----------------------------------------------------------------- *)
(** *** base64: decoding undoes encoding *)

Lemma list_ind3 (A : Type) (P : list A -> Prop) :
  P [] -> (forall a, P [a]) -> (forall a b, P [a; b]) ->
  (forall a b c l, P l -> P (a :: b :: c :: l)) ->
  forall l, P l.
Proof.
  intros H0 H1 H2 H3.
  assert (H : forall l, P l /\ (forall a, P (a :: l)) /\
                        (forall a b, P (a :: b :: l))).
  { induction l as [|x l (IHa & IHb & IHc)].
    - auto.
    - split; [apply IHb|]. split; [intros a; apply IHc|].
      intros a b. now apply H3. }
  intros l. apply H.
Qed.

Lemma lor_shiftl_add (x y k : N) :
  (y < 2 ^ k)%N -> N.lor (N.shiftl x k) y = (x * 2 ^ k + y)%N.
Proof.
  intros Hy. rewrite N.shiftl_mul_pow2.
  rewrite <- N.lxor_lor, <- N.add_nocarry_lxor; trivial;
    apply N.bits_inj; intros n; rewrite N.land_spec, N.bits_0;
    destruct (N.lt_ge_cases n k) as [Hn|Hn].
  1,3: now rewrite N.mul_pow2_bits_low.
  1,2: rewrite <- (N.mod_small y (2 ^ k)) by assumption;
       rewrite N.mod_pow2_bits_high by assumption;
       apply andb_false_r.
Qed.

Lemma to_N_lt (b : byte) : (Byte.to_N b < 256)%N.
Proof.
  pose proof (Byte.to_of_N_option_map (Byte.to_N b)) as H.
  rewrite Byte.of_to_N in H. simpl in H.
  destruct (Byte.to_N b <=? 255)%N eqn:E; [|discriminate].
  apply N.leb_le in E. lia.
Qed.

Lemma byteOfN_to_N (n : N) (b : byte) :
  (n mod 256 = Byte.to_N b)%N -> byteOfN n = b.
Proof.
  intros H. unfold byteOfN. now rewrite H, Byte.of_to_N.
Qed.

Lemma sextets_In (i : N) : (i < 64)%N -> In i sextets.
Proof.
  intros H. unfold sextets. apply in_map_iff. exists (N.to_nat i).
  split; [apply N2Nat.id|]. apply in_seq. lia.
Qed.

Lemma alphabet_checked :
  forallb (fun i =>
             match decodeChar (encodeChar i) with
             | Some j => N.eqb i j
             | None => false
             end && negb (Byte.eqb (encodeChar i) StdPadding)) sextets = true.
Proof. vm_compute. reflexivity. Qed.

Lemma decodeChar_encodeChar (i : N) :
  (i < 64)%N -> decodeChar (encodeChar i) = Some i.
Proof.
  intros H. pose proof alphabet_checked as A.
  rewrite forallb_forall in A. specialize (A i (sextets_In H)).
  apply andb_true_iff in A. destruct A as [A _].
  destruct (decodeChar (encodeChar i)) as [j|]; [|discriminate].
  apply N.eqb_eq in A. now subst.
Qed.

Lemma encodeChar_not_padding (i : N) :
  (i < 64)%N -> Byte.eqb (encodeChar i) StdPadding = false.
Proof.
  intros H. pose proof alphabet_checked as A.
  rewrite forallb_forall in A. specialize (A i (sextets_In H)).
  apply andb_true_iff in A. destruct A as [_ A].
  now apply negb_true_iff in A.
Qed.

Lemma land63 (x : N) : N.land x 63 = (x mod 64)%N.
Proof. change 63%N with (N.ones 6). now rewrite N.land_ones. Qed.

Lemma mod64_lt (x : N) : (x mod 64 < 64)%N.
Proof. apply N.mod_lt. discriminate. Qed.

#[local] Ltac to_arith :=
  repeat rewrite land63;
  repeat rewrite N.shiftr_div_pow2;
  repeat (rewrite lor_shiftl_add by (simpl; lia));
  repeat rewrite N.shiftl_mul_pow2;
  change (2 ^ 6)%N with 64%N; change (2 ^ 8)%N with 256%N;
  change (2 ^ 12)%N with 4096%N; change (2 ^ 16)%N with 65536%N;
  change (2 ^ 18)%N with 262144%N.

(** Linear arithmetic with division and remainder by constants. *)
Ltac divmod_lia := zify; Z.to_euclidean_division_equations; lia.

Lemma lor_add (x y k : N) :
  (x mod 2 ^ k = 0)%N -> (y < 2 ^ k)%N -> N.lor x y = (x + y)%N.
Proof.
  intros Hx Hy.
  assert (E : x = (x / 2 ^ k * 2 ^ k)%N).
  { rewrite (N.div_mod x (2 ^ k)) at 1 by (apply N.pow_nonzero; discriminate).
    rewrite Hx. lia. }
  rewrite E at 1 2. rewrite <- lor_shiftl_add by assumption.
  now rewrite N.shiftl_mul_pow2.
Qed.

Lemma quantum_arith (a b c : N) :
  (a < 256)%N -> (b < 256)%N -> (c < 256)%N ->
  quantum a b c = (a * 65536 + b * 256 + c)%N.
Proof.
  intros Ha Hb Hc. unfold quantum. rewrite !N.shiftl_mul_pow2.
  change (2 ^ 16)%N with 65536%N. change (2 ^ 8)%N with 256%N.
  rewrite (@lor_add (a * 65536) (b * 256) 16)%N
    by (change (2 ^ 16)%N with 65536%N; divmod_lia).
  rewrite (@lor_add (a * 65536 + b * 256) c 8)%N
    by (change (2 ^ 8)%N with 256%N; divmod_lia).
  reflexivity.
Qed.

(** The value a decoder rebuilds from four sextets. *)
Lemma sextets_arith (d0 d1 d2 d3 : N) :
  (d0 < 64)%N -> (d1 < 64)%N -> (d2 < 64)%N -> (d3 < 64)%N ->
  N.lor (N.lor (N.lor (N.shiftl d0 18) (N.shiftl d1 12)) (N.shiftl d2 6)) d3
  = (d0 * 262144 + d1 * 4096 + d2 * 64 + d3)%N.
Proof.
  intros H0 H1 H2 H3. rewrite !N.shiftl_mul_pow2.
  change (2 ^ 18)%N with 262144%N. change (2 ^ 12)%N with 4096%N.
  change (2 ^ 6)%N with 64%N.
  rewrite (@lor_add (d0 * 262144) (d1 * 4096) 18)%N
    by (change (2 ^ 18)%N with 262144%N; divmod_lia).
  rewrite (@lor_add (d0 * 262144 + d1 * 4096) (d2 * 64) 12)%N
    by (change (2 ^ 12)%N with 4096%N; divmod_lia).
  rewrite (@lor_add (d0 * 262144 + d1 * 4096 + d2 * 64) d3 6)%N
    by (change (2 ^ 6)%N with 64%N; divmod_lia).
  reflexivity.
Qed.

Lemma sextets_arith3 (d0 d1 d2 : N) :
  (d0 < 64)%N -> (d1 < 64)%N -> (d2 < 64)%N ->
  N.lor (N.lor (N.shiftl d0 18) (N.shiftl d1 12)) (N.shiftl d2 6)
  = (d0 * 262144 + d1 * 4096 + d2 * 64)%N.
Proof.
  intros H0 H1 H2.
  pose proof (@sextets_arith d0 d1 d2 0) as H.
  rewrite N.lor_0_r, N.add_0_r in H. apply H; trivial. reflexivity.
Qed.

Lemma sextets_arith2 (d0 d1 : N) :
  (d0 < 64)%N -> (d1 < 64)%N ->
  N.lor (N.shiftl d0 18) (N.shiftl d1 12) = (d0 * 262144 + d1 * 4096)%N.
Proof.
  intros H0 H1.
  pose proof (@sextets_arith3 d0 d1 0) as H.
  rewrite N.shiftl_0_l, N.lor_0_r, N.add_0_r in H. apply H; trivial.
  reflexivity.
Qed.

(** A full group of three bytes comes back, at the end of the text or not. *)
Lemma decodeQuantum_full (final : bool) (a b c : byte) :
  let val := quantum (Byte.to_N a) (Byte.to_N b) (Byte.to_N c) in
  decodeQuantum final
    (encodeChar (N.land (N.shiftr val 18) 63))
    (encodeChar (N.land (N.shiftr val 12) 63))
    (encodeChar (N.land (N.shiftr val 6) 63))
    (encodeChar (N.land val 63))
  = Some [a; b; c].
Proof.
  intros val. unfold decodeQuantum. rewrite !land63.
  rewrite !decodeChar_encodeChar by apply mod64_lt.
  rewrite !encodeChar_not_padding by apply mod64_lt.
  rewrite !andb_false_r.
  rewrite sextets_arith by apply mod64_lt.
  pose proof (to_N_lt a) as Ha. pose proof (to_N_lt b) as Hb.
  pose proof (to_N_lt c) as Hc.
  subst val. rewrite quantum_arith by assumption.
  rewrite !N.shiftr_div_pow2.
  change (2 ^ 18)%N with 262144%N. change (2 ^ 12)%N with 4096%N.
  change (2 ^ 6)%N with 64%N. change (2 ^ 16)%N with 65536%N.
  change (2 ^ 8)%N with 256%N.
  repeat f_equal; apply byteOfN_to_N; divmod_lia.
Qed.

(** A rest of two bytes comes back from its three characters and padding. *)
Lemma decodeQuantum_two (a b : byte) :
  let val := N.lor (N.shiftl (Byte.to_N a) 16) (N.shiftl (Byte.to_N b) 8) in
  decodeQuantum true
    (encodeChar (N.land (N.shiftr val 18) 63))
    (encodeChar (N.land (N.shiftr val 12) 63))
    (encodeChar (N.land (N.shiftr val 6) 63))
    StdPadding
  = Some [a; b].
Proof.
  intros val. unfold decodeQuantum. rewrite !land63.
  rewrite !decodeChar_encodeChar by apply mod64_lt.
  rewrite !encodeChar_not_padding by apply mod64_lt.
  rewrite andb_false_r. simpl andb.
  change (Byte.eqb StdPadding StdPadding) with true. cbv iota.
  rewrite sextets_arith3 by apply mod64_lt.
  pose proof (to_N_lt a) as Ha. pose proof (to_N_lt b) as Hb.
  assert (E : val = (Byte.to_N a * 65536 + Byte.to_N b * 256)%N).
  { pose proof (@quantum_arith (Byte.to_N a) (Byte.to_N b) 0 Ha Hb) as Q.
    unfold quantum in Q. rewrite N.lor_0_r, N.add_0_r in Q.
    apply Q. reflexivity. }
  rewrite E. rewrite !N.shiftr_div_pow2.
  change (2 ^ 18)%N with 262144%N. change (2 ^ 12)%N with 4096%N.
  change (2 ^ 6)%N with 64%N. change (2 ^ 16)%N with 65536%N.
  change (2 ^ 8)%N with 256%N.
  repeat f_equal; apply byteOfN_to_N; divmod_lia.
Qed.

(** A rest of one byte comes back from its two characters and padding. *)
Lemma decodeQuantum_one (a : byte) :
  let val := N.shiftl (Byte.to_N a) 16 in
  decodeQuantum true
    (encodeChar (N.land (N.shiftr val 18) 63))
    (encodeChar (N.land (N.shiftr val 12) 63))
    StdPadding StdPadding
  = Some [a].
Proof.
  intros val. unfold decodeQuantum. rewrite !land63.
  rewrite !decodeChar_encodeChar by apply mod64_lt.
  change (Byte.eqb StdPadding StdPadding) with true. simpl andb. cbv iota.
  rewrite sextets_arith2 by apply mod64_lt.
  pose proof (to_N_lt a) as Ha.
  subst val. rewrite !N.shiftr_div_pow2, N.shiftl_mul_pow2.
  change (2 ^ 18)%N with 262144%N. change (2 ^ 12)%N with 4096%N.
  change (2 ^ 16)%N with 65536%N.
  repeat f_equal; apply byteOfN_to_N; divmod_lia.
Qed.

(** Decoding undoes encoding. *)
Lemma Decode_Encode (src : list byte) : Decode (Encode src) = Some src.
Proof.
  induction src as [|a|a b|a b c rest IH] using list_ind3.
  - reflexivity.
  - cbn [Encode Decode]. apply decodeQuantum_one.
  - cbn [Encode Decode]. apply decodeQuantum_two.
  - cbn [Encode]. cbn [Decode]. fold (Decode (Encode rest)).
    destruct (Encode rest) as [|x more] eqn:E.
    + assert (rest = []) as ->.
      { destruct rest as [|r0 [|r1 [|r2 rest']]]; trivial; discriminate. }
      apply decodeQuantum_full.
    + rewrite decodeQuantum_full, IH. reflexivity.
Qed.

(* ----------------------------------------------------------------- *)
(** *** The streaming encoder emits the encoding of all it was given *)

Lemma splitBlocks_cons3 (a b c : byte) (p : list byte) :
  splitBlocks (a :: b :: c :: p)
  = (a :: b :: c :: fst (splitBlocks p), snd (splitBlocks p)).
Proof. cbn [splitBlocks]. now destruct (splitBlocks p). Qed.

Lemma splitBlocks_spec (p : list byte) :
  p = fst (splitBlocks p) ++ snd (splitBlocks p) /\
  (length (snd (splitBlocks p)) < 3)%nat.
Proof.
  induction p as [|a|a b|a b c rest [IH1 IH2]] using list_ind3;
    try (simpl; split; [reflexivity | lia]).
  rewrite splitBlocks_cons3. cbn [fst snd app]. split; [|exact IH2].
  now rewrite <- IH1.
Qed.

Lemma splitBlocks_app (p x : list byte) :
  splitBlocks (fst (splitBlocks p) ++ x)
  = (fst (splitBlocks p) ++ fst (splitBlocks x), snd (splitBlocks x)).
Proof.
  induction p as [|a|a b|a b c rest IH] using list_ind3;
    try (simpl; now destruct (splitBlocks x)).
  rewrite splitBlocks_cons3. cbn [fst app].
  rewrite splitBlocks_cons3, IH. reflexivity.
Qed.

Lemma Encode_blocks_app (p x : list byte) :
  Encode (fst (splitBlocks p) ++ x) = Encode (fst (splitBlocks p)) ++ Encode x.
Proof.
  induction p as [|a|a b|a b c rest IH] using list_ind3;
    try reflexivity.
  rewrite splitBlocks_cons3. cbn [fst app Encode]. now rewrite IH.
Qed.

Lemma Encode_split (p : list byte) :
  Encode p = Encode (fst (splitBlocks p)) ++ Encode (snd (splitBlocks p)).
Proof.
  rewrite <- Encode_blocks_app. now rewrite <- (proj1 (splitBlocks_spec p)).
Qed.

(** One [Write] of the streaming encoder: with [held] (fewer than three
    bytes) held back, it appends the encoding of the complete groups of
    [held ++ p] and holds the rest back. *)
Lemma Base64Encoder_Write_spec (enc : base64Encoder) (bw : bufWriter)
    (p : list byte) :
  err enc = None -> (length (nbuf enc) < 3)%nat ->
  exists bw' n,
    Base64Encoder.Write enc bw p
    = ({| err := None; nbuf := snd (splitBlocks (nbuf enc ++ p)) |}, bw',
       (n, None)) /\
    buf bw' = buf bw ++ Encode (fst (splitBlocks (nbuf enc ++ p))).
Proof.
  intros Herr Hlen. unfold Base64Encoder.Write. rewrite Herr.
  destruct (nbuf enc) as [|x [|y [|z held]]];
    [| | | simpl in Hlen; lia].
  - (* nothing held back *)
    cbn [app length firstn skipn Nat.ltb Nat.leb andb].
    destruct (splitBlocks p) as [blocks tail]. cbn [fst snd].
    destruct blocks as [|b0 blocks].
    + eexists _, _. split; [reflexivity|]. cbn [Encode]. now rewrite app_nil_r.
    + eexists _, _. split; [reflexivity|]. reflexivity.
  - (* one byte held back *)
    destruct p as [|p0 [|p1 p]].
    + eexists _, _. split; [reflexivity|]. simpl. now rewrite app_nil_r.
    + eexists _, _. split; [reflexivity|]. simpl. now rewrite app_nil_r.
    + cbn [app]. rewrite splitBlocks_cons3.
      cbn [length Nat.sub firstn skipn app Nat.ltb Nat.leb andb fst snd
           BufWriter.Write].
      destruct (splitBlocks p) as [blocks tail]. cbn [fst snd].
      destruct blocks as [|b0 blocks].
      * eexists _, _. split; [reflexivity|]. reflexivity.
      * eexists _, _. split; [reflexivity|].
        cbn [BufWriter.Write buf]. rewrite <- app_assoc. reflexivity.
  - (* two bytes held back *)
    destruct p as [|p0 p].
    + eexists _, _. split; [reflexivity|]. simpl. now rewrite app_nil_r.
    + cbn [app]. rewrite splitBlocks_cons3.
      cbn [length Nat.sub firstn skipn app Nat.ltb Nat.leb andb fst snd
           BufWriter.Write].
      destruct (splitBlocks p) as [blocks tail]. cbn [fst snd].
      destruct blocks as [|b0 blocks].
      * eexists _, _. split; [reflexivity|]. reflexivity.
      * eexists _, _. split; [reflexivity|].
        cbn [BufWriter.Write buf]. rewrite <- app_assoc. reflexivity.
Qed.

Lemma Write_streamed (before given p : list byte)
    (w : frameWriter) (e : encoder) :
  streamed before given w e ->
  exists w' e' n,
    FrameWriter.Write w e p = (w', e', (n, None)) /\
    streamed before (given ++ p) w' e' /\ sameControl e e'.
Proof.
  intros [Hw Hbuf].
  pose proof (splitBlocks_spec given) as [Hsplit Hlt].
  destruct (@Base64Encoder_Write_spec
              {| err := None; nbuf := snd (splitBlocks given) |}
              (writer e) p eq_refl Hlt) as (bw' & n & HW & Hbuf').
  cbn [nbuf] in HW, Hbuf'.
  unfold FrameWriter.Write. rewrite Hw, HW.
  eexists _, _, _. split; [reflexivity|]. split.
  - assert (E : splitBlocks (given ++ p)
                = (fst (splitBlocks given)
                   ++ fst (splitBlocks (snd (splitBlocks given) ++ p)),
                   snd (splitBlocks (snd (splitBlocks given) ++ p)))).
    { rewrite Hsplit at 1. rewrite <- app_assoc. apply splitBlocks_app. }
    unfold streamed. rewrite E. cbn [fst snd base64 set_writer writer].
    split; [reflexivity|].
    rewrite Hbuf', Hbuf, Encode_blocks_app, app_assoc. reflexivity.
  - apply sameControl_set_writer.
Qed.

Lemma WriteAll_streamed (ps : list (list byte)) :
  forall (before given : list byte) (w : frameWriter) (e : encoder),
    streamed before given w e ->
    exists w' e',
      FrameWriter.WriteAll w e ps = (w', e', None) /\
      streamed before (given ++ concat ps) w' e' /\ sameControl e e'.
Proof.
  induction ps as [|p rest IH]; intros before given w e H.
  - exists w, e. simpl. rewrite app_nil_r.
    split; [reflexivity|]. split; [assumption | apply sameControl_refl].
  - destruct (Write_streamed p H) as (w1 & e1 & n & HW & H1 & S1).
    destruct (IH before (given ++ p) w1 e1 H1) as (w2 & e2 & HA & H2 & S2).
    exists w2, e2. cbn [FrameWriter.WriteAll concat]. rewrite HW. cbn [snd].
    split; [exact HA|]. split.
    + now rewrite app_assoc.
    + eapply sameControl_trans; eassumption.
Qed.

Lemma Base64Encoder_Close_spec (held : list byte) (bw : bufWriter) :
  exists enc' bw',
    Base64Encoder.Close {| err := None; nbuf := held |} bw = (enc', bw', None) /\
    buf bw' = buf bw ++ Encode held.
Proof.
  unfold Base64Encoder.Close. cbn [err nbuf].
  destruct held as [|t0 tail].
  - eexists _, _. split; [reflexivity|]. cbn [Encode]. now rewrite app_nil_r.
  - generalize (Encode (t0 :: tail)). intros text.
    eexists _, _. split; reflexivity.
Qed.

(** [Close] after the frame was opened: the separator goes behind what was
    written, the flag is released and the signal is posted. *)
Lemma Close_text (w : frameWriter) (e : encoder) :
  base64 w = None ->
  exists e',
    FrameWriter.Close w e = (w, e', None) /\
    buf (writer e') = buf (writer e) ++ [separator].
Proof.
  intros Hw. unfold FrameWriter.Close. rewrite Hw.
  cbn [BufWriter.WriteByte]. unfold trySend.
  destruct (hasFramesChan _); eexists; split; reflexivity.
Qed.

Lemma Close_streamed (before given : list byte)
    (w : frameWriter) (e : encoder) :
  streamed before given w e ->
  exists w' e',
    FrameWriter.Close w e = (w', e', None) /\
    buf (writer e') = before ++ Encode given ++ [separator].
Proof.
  intros [Hw Hbuf]. unfold FrameWriter.Close. rewrite Hw.
  destruct (Base64Encoder_Close_spec (snd (splitBlocks given)) (writer e))
    as (enc' & bw' & HC & Hbw).
  rewrite HC. cbn [BufWriter.WriteByte].
  assert (E : buf bw' ++ [separator] = before ++ Encode given ++ [separator]).
  { rewrite Hbw, Hbuf, (Encode_split given), <- !app_assoc. reflexivity. }
  unfold trySend.
  destruct (hasFramesChan _); eexists _, _; (split; [reflexivity|]);
    cbn [writer set_writer set_hasNonClosedFrame set_hasFramesChan buf];
    exact E.
Qed.

Example Encode_hello :
  Encode (list_byte_of_string "hello") = list_byte_of_string "aGVsbG8=".
Proof. vm_compute. reflexivity. Qed.

Example Decode_hello :
  Decode (list_byte_of_string "aGVsbG8=")
  = Some (list_byte_of_string "hello").
Proof. vm_compute. reflexivity. Qed.

Example Decode_refuses_foreign_text :
  Decode (list_byte_of_string "aGV$bG8=") = None.
Proof. vm_compute. reflexivity. Qed.

Lemma NextFrame_Binary_streamed (binaryPrefix : byte) (e : encoder) :
  closed e = false -> hasNonClosedFrame e = 0%Z ->
  exists e1 w1,
    NextFrame binaryPrefix e Binary = (e1, inl w1) /\
    streamed (buf (writer e) ++ [binaryPrefix]) [] w1 e1.
Proof.
  intros Hc Hf.
  destruct (NextFrame_free binaryPrefix e Binary Hc Hf)
    as (e1 & w1 & Hnext & _ & _ & _ & Hbuf & Hw).
  exists e1, w1. split; [exact Hnext|]. split.
  - exact Hw.
  - cbn [splitBlocks fst Encode]. rewrite app_nil_r. exact Hbuf.
Qed.

Lemma base64Portion_frame (marker last : byte) (text : list byte) :
  base64Portion ([marker] ++ text ++ [last]) = text.
Proof. unfold base64Portion. cbn [app tl]. apply removelast_last. Qed.

(** C6. A binary frame that is opened on a free encoder, given its payload in
    any number of [Write]s and closed has appended to the buffer exactly the
    marker byte, the standard base64 text of the whole payload, and the
    separator; decoding what stands between the marker and the separator
    gives the payload back. *)
Theorem binary_frame_roundtrip (binaryPrefix : byte) (e : encoder)
    (ps : list (list byte)) :
  closed e = false -> hasNonClosedFrame e = 0%Z ->
  exists e1 w1 w2 e2 w3 e3,
    NextFrame binaryPrefix e Binary = (e1, inl w1) /\
    FrameWriter.WriteAll w1 e1 ps = (w2, e2, None) /\
    FrameWriter.Close w2 e2 = (w3, e3, None) /\
    buf (writer e3)
    = buf (writer e) ++ [binaryPrefix] ++ Encode (concat ps) ++ [separator] /\
    Decode (base64Portion (skipn (length (buf (writer e))) (buf (writer e3))))
    = Some (concat ps).
Proof.
  intros Hc Hf.
  destruct (NextFrame_Binary_streamed binaryPrefix e Hc Hf)
    as (e1 & w1 & Hnext & H1).
  destruct (WriteAll_streamed ps H1) as (w2 & e2 & Hall & H2 & _).
  destruct (Close_streamed H2) as (w3 & e3 & Hclose & Hbuf).
  cbn [app] in Hbuf. rewrite <- app_assoc in Hbuf.
  exists e1, w1, w2, e2, w3, e3.
  do 4 (split; [assumption|]).
  rewrite Hbuf, skipn_app, skipn_all, Nat.sub_diag.
  cbn [skipn]. rewrite app_nil_l, base64Portion_frame.
  apply Decode_Encode.
Qed.

Lemma binary_frame_roundtrip_witness :
  closed freeEncoder = false /\ hasNonClosedFrame freeEncoder = 0%Z /\
  exists e1 w1 w2 e2 w3 e3,
    NextFrame "b" freeEncoder Binary = (e1, inl w1) /\
    FrameWriter.WriteAll w1 e1
      [list_byte_of_string "he"; list_byte_of_string "llo"] = (w2, e2, None) /\
    FrameWriter.Close w2 e2 = (w3, e3, None) /\
    buf (writer e3)
    = buf (writer freeEncoder) ++ ["b"%byte]
      ++ Encode (concat [list_byte_of_string "he"; list_byte_of_string "llo"])
      ++ [separator] /\
    Decode (base64Portion (skipn (length (buf (writer freeEncoder)))
                                 (buf (writer e3))))
    = Some (concat [list_byte_of_string "he"; list_byte_of_string "llo"]).
Proof.
  split; [reflexivity|]. split; [reflexivity|].
  apply (@binary_frame_roundtrip "b" freeEncoder
           [list_byte_of_string "he"; list_byte_of_string "llo"]);
    reflexivity.
Defined.

(** The same frame, computed: the bytes [he] and [llo] leave [baGVsbG8=] and
    the separator in the buffer. *)
Example binary_frame_hello :
  let '(e1, r) := NextFrame "b" freeEncoder Binary in
  match r with
  | inl w1 =>
      let '(w2, e2, _) :=
        FrameWriter.WriteAll w1 e1
          [list_byte_of_string "he"; list_byte_of_string "llo"] in
      let '(_, e3, _) := FrameWriter.Close w2 e2 in
      buf (writer e3) = list_byte_of_string "baGVsbG8=" ++ [separator]
  | inr _ => False
  end.
Proof. vm_compute. reflexivity. Qed.

(* ----------------------------------------------------------------- *)
(** *** The client: reconnect, Connect and Close *)

Lemma reconnect_S (fuel : nat) (c : Client) (w : World) :
  reconnect (S fuel) c w
  = if reconnecting c then (c, w, Returned None)
    else if reached (attempts (retryStrategy c)) (reconnectionAttempts c)
    then (set_reconnecting (set_retryStrategy c (Reset (retryStrategy c))) false,
          w, Returned (Some ErrReconnectFailed))
    else
      let '(delay, c1, w1) := drawDuration c w in
      reconnectLoop fuel delay (set_reconnecting c1 true) w1.
Proof. reflexivity. Qed.

Lemma reconnectLoop_S (fuel : nat) (delay : Q) (c : Client) (w : World) :
  reconnectLoop (S fuel) delay c w
  = let '(c1, w2, st) := Connect fuel c (emit w (Sleep (toDuration delay))) in
    match st with
    | Running => (c1, w2, Running)
    | Returned None =>
        (set_reconnecting (set_retryStrategy c1 (Reset (retryStrategy c1))) false,
         w2, Returned None)
    | Returned (Some _) =>
        reconnectLoop fuel delay (set_reconnecting c1 false) w2
    end.
Proof. reflexivity. Qed.

Lemma Connect_S (fuel : nat) (c : Client) (w : World) :
  Connect (S fuel) c w
  = let w1 := nextConnect (emit w Dial) in
    match outcomes w (connects w) with
    | DialFails e => (c, w1, Returned (Some e))
    | HandshakeFails e =>
        let '(c2, w2, st) := Close fuel (set_conn c (Some (connects w))) w1 in
        match st with
        | Running => (c2, w2, Running)
        | Returned _ =>
            (c2, if rootOnError c2 then emit w2 (OnError e) else w2,
             Returned (Some e))
        end
    | Connects =>
        (set_conn c (Some (connects w)), emit w1 Tasks, Returned None)
    end.
Proof. reflexivity. Qed.

Lemma Close_S (fuel : nat) (c : Client) (w : World) :
  Close (S fuel) c w
  = if reconnection c then
      reconnect fuel
        (set_reconnecting (set_retryStrategy c (Reset (retryStrategy c))) false)
        w
    else (c, emit w (ConnClose (conn c)), Returned (closeAnswer w)).
Proof. reflexivity. Qed.

Lemma count_emit (p : event -> bool) (w : World) (ev : event) :
  count p (trace (emit w ev))
  = (count p (trace w) + (if p ev then 1 else 0))%nat.
Proof.
  unfold count, emit. cbn [trace]. rewrite filter_app, length_app.
  cbn [filter]. now destruct (p ev).
Qed.

Lemma drawDuration_trace (c : Client) (w : World) :
  trace (snd (drawDuration c w)) = trace w /\
  outcomes (snd (drawDuration c w)) = outcomes w /\
  connects (snd (drawDuration c w)) = connects w /\
  reconnection (snd (fst (drawDuration c w))) = reconnection c.
Proof.
  unfold drawDuration.
  destruct (Duration (retryStrategy c) (draws w (drawn w))) as [d b'].
  destruct (Qgt0 (jitter (retryStrategy c))); repeat split.
Qed.

(** C8. When no reconnection is in flight and the attempts have reached the
    bound, [reconnect] returns the exhaustion error at once: the backoff is
    reset, the flag is clear, and the outside is untouched (no wait, no dial,
    no draw). *)
Theorem reconnect_exhausted (fuel : nat) (c : Client) (w : World) :
  reconnecting c = false ->
  reached (attempts (retryStrategy c)) (reconnectionAttempts c) = true ->
  exists c',
    reconnect (S fuel) c w = (c', w, Returned (Some ErrReconnectFailed)) /\
    attempts (retryStrategy c') = 0%nat /\
    reconnecting c' = false.
Proof.
  intros Hflag Hmax. rewrite reconnect_S, Hflag, Hmax.
  eexists. split; [reflexivity|]. split; reflexivity.
Qed.

Lemma reconnect_exhausted_witness :
  reconnecting spentClient = false /\
  reached (attempts (retryStrategy spentClient))
          (reconnectionAttempts spentClient) = true /\
  exists c',
    reconnect 1 spentClient (quietWorld failsOnce)
    = (c', quietWorld failsOnce, Returned (Some ErrReconnectFailed)) /\
    attempts (retryStrategy c') = 0%nat /\
    reconnecting c' = false.
Proof.
  split; [reflexivity|]. split; [reflexivity|].
  apply (@reconnect_exhausted 0 spentClient (quietWorld failsOnce));
    reflexivity.
Defined.





(** The loop of [reconnect] returns only through a [Connect] that succeeded:
    what it returns is no error, with the backoff reset and the flag clear. *)
Lemma reconnectLoop_returns_connected (fuel : nat) :
  forall (delay : Q) (c : Client) (w : World) (c' : Client) (w' : World)
         (e : option error),
    reconnectLoop fuel delay c w = (c', w', Returned e) ->
    e = None /\ attempts (retryStrategy c') = 0%nat /\ reconnecting c' = false.
Proof.
  induction fuel as [|fuel IH]; intros delay c w c' w' e H.
  - discriminate.
  - rewrite reconnectLoop_S in H.
    destruct (Connect fuel c _) as [[c1 w2] st].
    destruct st as [[err1|]|].
    + eapply IH. exact H.
    + inversion H; subst. repeat split.
    + discriminate.
Qed.

(** A dialer that never connects keeps the loop going for ever. *)
Lemma reconnectLoop_never_returns (fuel : nat) :
  forall (delay : Q) (c : Client) (w : World),
    (forall i, exists e, outcomes w i = DialFails e) ->
    snd (reconnectLoop fuel delay c w) = Running.
Proof.
  induction fuel as [|fuel IH]; intros delay c w Hfail.
  - reflexivity.
  - rewrite reconnectLoop_S. destruct fuel as [|fuel'].
    + reflexivity.
    + rewrite Connect_S. cbv zeta. cbn [emit outcomes connects].
      destruct (Hfail (connects w)) as [e He]. rewrite He.
      apply IH. intros i. apply Hfail.
Qed.





(** [Close] on the fresh client, which has reconnection enabled, against a
    dialer that fails once: two waits, two dials, no close of a connection. *)
Example Close_fresh_client :
  trace (snd (fst (Close 5 freshClient (quietWorld failsOnce))))
  = [Sleep 3000000000; Dial; Sleep 3000000000; Dial; Tasks].
Proof. vm_compute. reflexivity. Qed.

(** The same with reconnection disabled: the connection is closed. *)
Example Close_without_reconnection :
  Close 1 connectedClient (quietWorld failsOnce)
  = (connectedClient,
     emit (quietWorld failsOnce) (ConnClose (Some 0%nat)),
     Returned None).
Proof. reflexivity. Qed.

(** A dialer that never connects: the invocation is still running after any
    number of steps. *)
Example reconnect_never_returns (fuel : nat) :
  snd (reconnect fuel freshClient (quietWorld neverConnects)) = Running.
Proof.
  destruct fuel as [|fuel]; [reflexivity|].
  rewrite reconnect_S. cbn [reconnecting freshClient].
  change (reached _ _) with false. cbv iota.
  destruct (drawDuration freshClient (quietWorld neverConnects))
    as [[delay c1] w1] eqn:E.
  apply reconnectLoop_never_returns.
  intros i. exists ErrDial.
  pose proof (drawDuration_trace freshClient (quietWorld neverConnects))
    as (_ & Ho & _).
  rewrite E in Ho. cbn [snd] in Ho. rewrite Ho. reflexivity.
Qed.

(* ----------------------------------------------------------------- *)
(** *** RetryStrategy: further properties *)

Lemma Duration_state (b : RetryStrategy) (r : Q) :
  snd (Duration b r) = set_attempts b (S (attempts b)).
Proof. reflexivity. Qed.

Lemma afterCalls_eq (b : RetryStrategy) (n : nat) (rand : nat -> Q) :
  afterCalls n rand b = set_attempts b (attempts b + n).
Proof.
  induction n as [|n IH]; cbn [afterCalls].
  - destruct b. unfold set_attempts. cbn. now rewrite Nat.add_0_r.
  - rewrite Duration_state, IH. unfold set_attempts. cbn.
    f_equal. lia.
Qed.


(** X2. [Reset] undoes any number of [Duration] calls: the call after it is
    the call a strategy with the same settings makes at [attempts = 0]. *)
Theorem Reset_restarts (b : RetryStrategy) (n : nat) (rand : nat -> Q) (r : Q) :
  Duration (Reset (afterCalls n rand b)) r = Duration (Reset b) r.
Proof. now rewrite afterCalls_eq. Qed.










(* ----------------------------------------------------------------- *)
(** *** The encoder: further properties *)

Lemma accepted_clean (ps : list (list byte)) :
  ~ In separator (concat (accepted ps)).
Proof.
  induction ps as [|p rest IH]; cbn [accepted concat].
  - intros [].
  - destruct (FrameWriter.hasSeparator p) eqn:E.
    + intros [].
    + cbn [concat]. intros H. apply in_app_or in H. destruct H as [H|H].
      * apply hasSeparator_In in H. congruence.
      * now apply IH.
Qed.

Lemma accepted_all (ps : list (list byte)) :
  forallb (fun p => negb (FrameWriter.hasSeparator p)) ps = true ->
  accepted ps = ps.
Proof.
  induction ps as [|p rest IH]; cbn [forallb accepted]; trivial.
  intros H. apply andb_true_iff in H. destruct H as [Hp Hrest].
  apply negb_true_iff in Hp. rewrite Hp. now rewrite IH.
Qed.

(** What a text frame's writer makes of a run of [Write]s: the chunks up to
    the first one with a separator in it are appended, that one is refused. *)
Lemma WriteAll_text (ps : list (list byte)) :
  forall (w : frameWriter) (e : encoder),
    base64 w = None ->
    exists e',
      FrameWriter.WriteAll w e ps
      = (w, e',
         if forallb (fun p => negb (FrameWriter.hasSeparator p)) ps
         then None else Some ErrSeparatorInTextFrame) /\
      buf (writer e') = buf (writer e) ++ concat (accepted ps) /\
      sameControl e e'.
Proof.
  induction ps as [|p rest IH]; intros w e Hw.
  - exists e. cbn. rewrite app_nil_r.
    repeat split.
  - cbn [FrameWriter.WriteAll forallb accepted].
    unfold FrameWriter.Write. rewrite Hw.
    destruct (FrameWriter.hasSeparator p) eqn:E.
    + exists e. cbn. rewrite app_nil_r. repeat split.
    + cbn [BufWriter.Write snd negb andb].
      destruct (IH w (set_writer e {| buf := buf (writer e) ++ p |}) Hw)
        as (e' & HW & Hbuf & Hsame).
      exists e'. split; [exact HW|]. split.
      * rewrite Hbuf. cbn [set_writer writer buf concat].
        now rewrite app_assoc.
      * eapply sameControl_trans; [apply sameControl_set_writer | exact Hsame].
Qed.

(** X6. A text frame opened on a free encoder, written to by any run of
    [Write]s and closed leaves in the buffer the chunks that were accepted and
    one separator behind them, and no separator before that one: the frame
    ends where the first separator stands. *)
Theorem text_frame_bytes (binaryPrefix : byte) (e : encoder)
    (ps : list (list byte)) :
  closed e = false -> hasNonClosedFrame e = 0%Z ->
  exists e1 w1 w2 e2 w3 e3 r,
    NextFrame binaryPrefix e Text = (e1, inl w1) /\
    FrameWriter.WriteAll w1 e1 ps = (w2, e2, r) /\
    FrameWriter.Close w2 e2 = (w3, e3, None) /\
    buf (writer e3)
    = buf (writer e) ++ concat (accepted ps) ++ [separator] /\
    ~ In separator (concat (accepted ps)) /\
    (forallb (fun p => negb (FrameWriter.hasSeparator p)) ps = true ->
     r = None /\ accepted ps = ps).
Proof.
  intros Hc Hf.
  destruct (NextFrame_free binaryPrefix e Text Hc Hf)
    as (e1 & w1 & Hnext & _ & _ & _ & Hbuf1 & Hw1).
  cbn [FrameType_eqb] in Hbuf1, Hw1. rewrite app_nil_r in Hbuf1.
  destruct (WriteAll_text ps w1 e1 Hw1) as (e2 & Hall & Hbuf2 & _).
  destruct (Close_text w1 e2 Hw1) as (e3 & Hclose & Hbuf3).
  exists e1, w1, w1, e2, w1, e3. eexists.
  split; [exact Hnext|]. split; [exact Hall|]. split; [exact Hclose|].
  split; [|split].
  - rewrite Hbuf3, Hbuf2, Hbuf1, <- app_assoc. reflexivity.
  - apply accepted_clean.
  - intros Hclean. rewrite Hclean. split; [reflexivity|].
    now apply accepted_all.
Qed.

Lemma text_frame_bytes_witness :
  closed freeEncoder = false /\ hasNonClosedFrame freeEncoder = 0%Z /\
  exists e1 w1 w2 e2 w3 e3 r,
    NextFrame "b" freeEncoder Text = (e1, inl w1) /\
    FrameWriter.WriteAll w1 e1
      [list_byte_of_string "ab"; list_byte_of_string "c"] = (w2, e2, r) /\
    FrameWriter.Close w2 e2 = (w3, e3, None) /\
    buf (writer e3)
    = buf (writer freeEncoder)
      ++ concat (accepted [list_byte_of_string "ab"; list_byte_of_string "c"])
      ++ [separator] /\
    ~ In separator
        (concat (accepted [list_byte_of_string "ab"; list_byte_of_string "c"])) /\
    (forallb (fun p => negb (FrameWriter.hasSeparator p))
       [list_byte_of_string "ab"; list_byte_of_string "c"] = true ->
     r = None /\
     accepted [list_byte_of_string "ab"; list_byte_of_string "c"]
     = [list_byte_of_string "ab"; list_byte_of_string "c"]).
Proof.
  split; [reflexivity|]. split; [reflexivity|].
  apply (@text_frame_bytes "b" freeEncoder
           [list_byte_of_string "ab"; list_byte_of_string "c"]);
    reflexivity.
Defined.

Lemma alphabet_not_separator :
  forallb (fun i => negb (Byte.eqb (encodeChar i) separator)) sextets = true.
Proof. vm_compute. reflexivity. Qed.

Lemma encodeChar_not_separator (x : N) :
  encodeChar (N.land x 63) <> separator.
Proof.
  pose proof alphabet_not_separator as A. rewrite forallb_forall in A.
  rewrite land63. specialize (A _ (sextets_In (mod64_lt x))).
  apply negb_true_iff in A. now apply Byte.eqb_false in A.
Qed.

(** base64 text has no separator in it. *)
Lemma Encode_no_separator (p : list byte) : ~ In separator (Encode p).
Proof.
  induction p as [|a|a b|a b c rest IH] using list_ind3;
    cbn [Encode In]; intros H.
  - exact H.
  - destruct H as [H|[H|[H|[H|[]]]]];
      try (now apply encodeChar_not_separator in H); discriminate H.
  - destruct H as [H|[H|[H|[H|[]]]]];
      try (now apply encodeChar_not_separator in H); discriminate H.
  - destruct H as [H|[H|[H|[H|H]]]];
      try (now apply encodeChar_not_separator in H). now apply IH.
Qed.

(** X7. A binary frame written through [Write] and closed leaves the marker,
    the base64 text and one separator; when the marker is not the separator
    byte, there is no separator before that last one, whatever bytes the
    payload has (the separator included). *)
Theorem binary_frame_one_separator (binaryPrefix : byte) (e : encoder)
    (ps : list (list byte)) :
  binaryPrefix <> separator ->
  closed e = false -> hasNonClosedFrame e = 0%Z ->
  exists e1 w1 w2 e2 w3 e3,
    NextFrame binaryPrefix e Binary = (e1, inl w1) /\
    FrameWriter.WriteAll w1 e1 ps = (w2, e2, None) /\
    FrameWriter.Close w2 e2 = (w3, e3, None) /\
    buf (writer e3)
    = buf (writer e) ++ (binaryPrefix :: Encode (concat ps)) ++ [separator] /\
    ~ In separator (binaryPrefix :: Encode (concat ps)).
Proof.
  intros Hbp Hc Hf.
  destruct (NextFrame_Binary_streamed binaryPrefix e Hc Hf)
    as (e1 & w1 & Hnext & H1).
  destruct (WriteAll_streamed ps H1) as (w2 & e2 & Hall & H2 & _).
  destruct (Close_streamed H2) as (w3 & e3 & Hclose & Hbuf).
  cbn [app] in Hbuf. rewrite <- app_assoc in Hbuf.
  exists e1, w1, w2, e2, w3, e3.
  do 3 (split; [assumption|]). split; [exact Hbuf|].
  intros [H|H]; [congruence|]. now apply Encode_no_separator in H.
Qed.

Lemma binary_frame_one_separator_witness :
  "b"%byte <> separator /\
  closed freeEncoder = false /\ hasNonClosedFrame freeEncoder = 0%Z /\
  exists e1 w1 w2 e2 w3 e3,
    NextFrame "b" freeEncoder Binary = (e1, inl w1) /\
    FrameWriter.WriteAll w1 e1 [[separator]; [separator; "x"%byte]]
    = (w2, e2, None) /\
    FrameWriter.Close w2 e2 = (w3, e3, None) /\
    buf (writer e3)
    = buf (writer freeEncoder)
      ++ ("b"%byte :: Encode (concat [[separator]; [separator; "x"%byte]]))
      ++ [separator] /\
    ~ In separator
        ("b"%byte :: Encode (concat [[separator]; [separator; "x"%byte]])).
Proof.
  assert (Hbp : "b"%byte <> separator) by discriminate.
  split; [exact Hbp|]. split; [reflexivity|]. split; [reflexivity|].
  apply (@binary_frame_one_separator "b" freeEncoder
           [[separator]; [separator; "x"%byte]] Hbp); reflexivity.
Defined.

(** One well-formed frame on a free encoder: it is written without error,
    its bytes are appended, the encoder is free again and the signal is
    posted. *)
Lemma writeFrame_spec (binaryPrefix : byte) (e : encoder) (f : frame) :
  closed e = false -> hasNonClosedFrame e = 0%Z -> wellFormed f = true ->
  exists e',
    writeFrame binaryPrefix e f = (e', None) /\
    buf (writer e') = buf (writer e) ++ wire binaryPrefix f /\
    closed e' = false /\ hasNonClosedFrame e' = 0%Z /\
    hasFramesChan e' = true /\
    pingTimeout e' = pingTimeout e /\ lastPing e' = lastPing e.
Proof.
  intros Hc Hf Hwf. destruct f as [ft ps]. unfold writeFrame, wire, wellFormed in *.
  cbn [fst snd] in *.
  pose proof (NextFrame_free binaryPrefix e ft Hc Hf)
    as (e1 & w1 & Hnext & Hc1 & _ & _ & Hbuf1 & Hw1).
  assert (Hclock1 : pingTimeout e1 = pingTimeout e /\ lastPing e1 = lastPing e).
  { unfold NextFrame, CompareAndSwapInt32 in Hnext. rewrite Hc, Hf in Hnext.
    cbn in Hnext. destruct (FrameType_eqb ft Binary);
      inversion Hnext; subst; split; reflexivity. }
  rewrite Hnext. destruct ft; cbn [FrameType_eqb] in Hbuf1, Hw1.
  - (* text *)
    rewrite app_nil_r in Hbuf1.
    destruct (WriteAll_text ps w1 e1 Hw1) as (e2 & Hall & Hbuf2 & Hsame).
    rewrite Hwf in Hall. rewrite Hall.
    destruct (Close_text w1 e2 Hw1) as (e3 & Hclose & Hbuf3).
    destruct (Close_releases w1 e2) as (w3' & e3' & Hclose' & Hc3 & Hf3 & Hs3).
    rewrite Hclose in Hclose'. inversion Hclose'; subst w3' e3'.
    rewrite Hclose. exists e3. split; [reflexivity|].
    destruct Hsame as (Hp & Hl & _ & Hc2 & _).
    assert (Hclock3 : pingTimeout e3 = pingTimeout e2 /\ lastPing e3 = lastPing e2).
    { unfold FrameWriter.Close in Hclose. rewrite Hw1 in Hclose.
      cbn [BufWriter.WriteByte] in Hclose. unfold trySend in Hclose.
      destruct (hasFramesChan _); inversion Hclose; subst; split; reflexivity. }
    rewrite (accepted_all ps Hwf) in Hbuf2.
    repeat split; try congruence.
    + rewrite Hbuf3, Hbuf2, Hbuf1, <- app_assoc. reflexivity.
    + destruct Hclock1, Hclock3. congruence.
    + destruct Hclock1, Hclock3. congruence.
  - (* binary *)
    assert (H1 : streamed (buf (writer e) ++ [binaryPrefix]) [] w1 e1).
    { split; [exact Hw1|]. cbn [splitBlocks fst Encode].
      now rewrite app_nil_r. }
    destruct (WriteAll_streamed ps H1) as (w2 & e2 & Hall & H2 & Hsame).
    rewrite Hall.
    destruct (Close_streamed H2) as (w3 & e3 & Hclose & Hbuf3).
    destruct (Close_releases w2 e2) as (w3' & e3' & Hclose' & Hc3 & Hf3 & Hs3).
    rewrite Hclose in Hclose'. inversion Hclose'; subst w3' e3'.
    rewrite Hclose. exists e3. split; [reflexivity|].
    destruct Hsame as (Hp & Hl & _ & Hc2 & _).
    assert (Hclock3 : pingTimeout e3 = pingTimeout e2 /\ lastPing e3 = lastPing e2).
    { unfold FrameWriter.Close in Hclose.
      destruct (base64 w2) as [enc|].
      - destruct (Base64Encoder.Close enc (writer e2)) as [[enc' bw] rr].
        cbn [BufWriter.WriteByte] in Hclose. unfold trySend in Hclose.
        destruct (hasFramesChan _); inversion Hclose; subst; split; reflexivity.
      - cbn [BufWriter.WriteByte] in Hclose. unfold trySend in Hclose.
        destruct (hasFramesChan _); inversion Hclose; subst; split; reflexivity. }
    repeat split; try congruence.
    + rewrite Hbuf3. cbn [app]. now rewrite <- !app_assoc.
    + destruct Hclock1, Hclock3. congruence.
    + destruct Hclock1, Hclock3. congruence.
Qed.

Lemma writeFrames_spec (binaryPrefix : byte) (fs : list frame) :
  forall e : encoder,
    closed e = false -> hasNonClosedFrame e = 0%Z ->
    forallb wellFormed fs = true ->
    exists e',
      writeFrames binaryPrefix e fs = (e', None) /\
      buf (writer e')
      = buf (writer e) ++ concat (map (wire binaryPrefix) fs) /\
      closed e' = false /\ hasNonClosedFrame e' = 0%Z /\
      (fs <> [] -> hasFramesChan e' = true) /\
      pingTimeout e' = pingTimeout e /\ lastPing e' = lastPing e.
Proof.
  induction fs as [|f rest IH]; intros e Hc Hf Hwf.
  - exists e. cbn. rewrite app_nil_r. repeat split; trivial.
    intros H. now elim H.
  - cbn [forallb] in Hwf. apply andb_true_iff in Hwf. destruct Hwf as [Hwf Hrest].
    destruct (writeFrame_spec binaryPrefix e f Hc Hf Hwf)
      as (e1 & Hone & Hbuf1 & Hc1 & Hf1 & Hs1 & Hp1 & Hl1).
    destruct (IH e1 Hc1 Hf1 Hrest)
      as (e2 & Hall & Hbuf2 & Hc2 & Hf2 & Hs2 & Hp2 & Hl2).
    exists e2. cbn [writeFrames map concat]. rewrite Hone.
    split; [exact Hall|]. split; [|repeat split; try congruence].
    + rewrite Hbuf2, Hbuf1, <- app_assoc. reflexivity.
    + intros _. destruct rest as [|g rest'].
      * cbn in Hall. inversion Hall. now subst.
      * apply Hs2. discriminate.
Qed.

(** X8. Well-formed frames written one after the other to a free encoder
    stand in the buffer in that order, each with its separator behind it,
    and leave the encoder free.  One [WriteFramesTo] then hands all of them
    to the output in a single [Write] and empties the buffer; the signal is
    used up, so a second [WriteFramesTo] finds no frame ready. *)
Theorem frames_in_order_then_flushed (binaryPrefix : byte) (e : encoder)
    (fs : list frame) (start start' : Z) (out : ioWriter) :
  closed e = false -> hasNonClosedFrame e = 0%Z ->
  forallb wellFormed fs = true -> fs <> [] ->
  exists e' e'',
    writeFrames binaryPrefix e fs = (e', None) /\
    buf (writer e') = buf (writer e) ++ concat (map (wire binaryPrefix) fs) /\
    hasNonClosedFrame e' = 0%Z /\
    WriteFramesTo e' start FramesReady out
    = Some (e'',
            {| received :=
                 received out
                 ++ [buf (writer e) ++ concat (map (wire binaryPrefix) fs)];
               answer := answer out |},
            answer out) /\
    buf (writer e'') = [] /\
    WriteFramesTo e'' start' FramesReady
      {| received :=
           received out
           ++ [buf (writer e) ++ concat (map (wire binaryPrefix) fs)];
         answer := answer out |}
    = None.
Proof.
  intros Hc Hf Hwf Hne.
  destruct (writeFrames_spec binaryPrefix fs e Hc Hf Hwf)
    as (e' & Hall & Hbuf & _ & Hf' & Hs & _).
  specialize (Hs Hne).
  exists e', (set_writer (set_hasFramesChan e' false) {| buf := [] |}).
  split; [exact Hall|]. split; [exact Hbuf|]. split; [exact Hf'|].
  split; [|split; reflexivity].
  unfold WriteFramesTo. rewrite Hs.
  unfold BufWriter.WriteFinishedFrames, ioWrite.
  cbn [set_hasFramesChan writer snd]. rewrite Hbuf.
  destruct (answer out); reflexivity.
Qed.

Lemma frames_in_order_then_flushed_witness :
  exists e' e'',
    writeFrames "b" freeEncoder sampleFrames = (e', None) /\
    buf (writer e')
    = buf (writer freeEncoder) ++ concat (map (wire "b") sampleFrames) /\
    hasNonClosedFrame e' = 0%Z /\
    WriteFramesTo e' 10 FramesReady emptyOutput
    = Some (e'',
            {| received :=
                 received emptyOutput
                 ++ [buf (writer freeEncoder)
                     ++ concat (map (wire "b") sampleFrames)];
               answer := answer emptyOutput |},
            answer emptyOutput) /\
    buf (writer e'') = [] /\
    WriteFramesTo e'' 20 FramesReady
      {| received :=
           received emptyOutput
           ++ [buf (writer freeEncoder)
               ++ concat (map (wire "b") sampleFrames)];
         answer := answer emptyOutput |}
    = None.
Proof.
  apply (@frames_in_order_then_flushed "b" freeEncoder sampleFrames 10 20
           emptyOutput); try reflexivity.
  discriminate.
Defined.

(** The sample frames, computed: [abc], [hello] in base64 behind the marker,
    and an empty text frame. *)
Example sampleFrames_bytes :
  buf (writer (fst (writeFrames "b" freeEncoder sampleFrames)))
  = list_byte_of_string "abc" ++ [separator]
    ++ list_byte_of_string "baGVsbG8=" ++ [separator]
    ++ [separator].
Proof. vm_compute. reflexivity. Qed.

(** X9. A [NextFrame] that fails has changed nothing in the encoder, and it
    fails in two ways only: with [io.EOF] on a closed encoder, with the
    reuse-violation error on one that is not closed and has a writer open. *)
Theorem NextFrame_failure_harmless (binaryPrefix : byte) (e e' : encoder)
    (ft : FrameType) (er : error) :
  NextFrame binaryPrefix e ft = (e', inr er) ->
  e' = e /\
  ((closed e = true /\ er = EOF) \/
   (closed e = false /\ hasNonClosedFrame e <> 0%Z /\ er = ErrNonCloseFrame)).
Proof.
  intros H. destruct (closed e) eqn:Hc.
  - rewrite (NextFrame_closed binaryPrefix e ft Hc) in H.
    inversion H; subst. split; [reflexivity|]. left. split; reflexivity.
  - destruct (Z.eq_dec (hasNonClosedFrame e) 0) as [Hf|Hf].
    + destruct (NextFrame_free binaryPrefix e ft Hc Hf)
        as (e1 & w1 & Hnext & _).
      rewrite Hnext in H. discriminate.
    + rewrite (NextFrame_held binaryPrefix e ft Hc Hf) in H.
      inversion H; subst. split; [reflexivity|]. right. repeat split.
      exact Hf.
Qed.

Lemma NextFrame_failure_harmless_witness :
  busyEncoder = busyEncoder /\
  ((closed busyEncoder = true /\ ErrNonCloseFrame = EOF) \/
   (closed busyEncoder = false /\ hasNonClosedFrame busyEncoder <> 0%Z /\
    ErrNonCloseFrame = ErrNonCloseFrame)).
Proof.
  apply (@NextFrame_failure_harmless "b" busyEncoder busyEncoder Binary
           ErrNonCloseFrame).
  reflexivity.
Defined.

Lemma WaitFrameClose_same (e e' : encoder) :
  WaitFrameClose e = Some e' -> e' = e.
Proof.
  unfold WaitFrameClose, trySend.
  destruct (hasNonClosedFrame e =? 0)%Z; [congruence|].
  destruct (hasFramesChan e) eqn:Hs; [|discriminate].
  cbn. intros H. inversion H. destruct e. cbn in *. now subst.
Qed.

Lemma WaitFrameClose_eq (e : encoder) :
  WaitFrameClose e
  = if (hasNonClosedFrame e =? 0)%Z || hasFramesChan e
    then Some e else None.
Proof.
  destruct (WaitFrameClose e) as [e'|] eqn:E.
  - rewrite (WaitFrameClose_same e E).
    unfold WaitFrameClose in E.
    destruct (hasNonClosedFrame e =? 0)%Z; [reflexivity|].
    destruct (hasFramesChan e); [reflexivity | discriminate].
  - unfold WaitFrameClose in E.
    destruct (hasNonClosedFrame e =? 0)%Z; [discriminate|].
    destruct (hasFramesChan e); [discriminate | reflexivity].
Qed.

(** X10. [WaitFrameClose] returns exactly when no writer is open or the
    signal of a close is pending, and it hands the encoder back as it found
    it, the signal included; after a [Close] that succeeded it always
    returns. *)
Theorem WaitFrameClose_returns (e : encoder) :
  (WaitFrameClose e
   = if (hasNonClosedFrame e =? 0)%Z || hasFramesChan e
     then Some e else None) /\
  (forall (w w' : frameWriter) (e0 : encoder),
     FrameWriter.Close w e0 = (w', e, None) -> WaitFrameClose e = Some e).
Proof.
  split; [apply WaitFrameClose_eq|].
  intros w w' e0 Hclose.
  destruct (Close_releases w e0) as (w1 & e1 & Hclose1 & _ & Hf & _).
  rewrite Hclose in Hclose1. inversion Hclose1; subst.
  rewrite WaitFrameClose_eq, Hf. reflexivity.
Qed.

(** X11. [WaitFrameClose] does not tell whose close it saw: when a frame was
    closed and not yet flushed and the next frame is open, it returns at once
    although that writer is still open. *)
Theorem WaitFrameClose_stale_signal (binaryPrefix : byte) (e : encoder)
    (f : frame) (ft : FrameType) :
  closed e = false -> hasNonClosedFrame e = 0%Z -> wellFormed f = true ->
  exists e1 e2 w2,
    writeFrame binaryPrefix e f = (e1, None) /\
    NextFrame binaryPrefix e1 ft = (e2, inl w2) /\
    hasNonClosedFrame e2 = 1%Z /\
    WaitFrameClose e2 = Some e2.
Proof.
  intros Hc Hf Hwf.
  destruct (writeFrame_spec binaryPrefix e f Hc Hf Hwf)
    as (e1 & Hone & _ & Hc1 & Hf1 & Hs1 & _).
  destruct (NextFrame_free binaryPrefix e1 ft Hc1 Hf1)
    as (e2 & w2 & Hnext & _ & Hf2 & Hs2 & _).
  exists e1, e2, w2. split; [exact Hone|]. split; [exact Hnext|].
  split; [exact Hf2|].
  rewrite WaitFrameClose_eq, Hf2, Hs2, Hs1. reflexivity.
Qed.

Lemma WaitFrameClose_stale_signal_witness :
  exists e1 e2 w2,
    writeFrame "b" freeEncoder (Text, [list_byte_of_string "abc"])
    = (e1, None) /\
    NextFrame "b" e1 Binary = (e2, inl w2) /\
    hasNonClosedFrame e2 = 1%Z /\
    WaitFrameClose e2 = Some e2.
Proof.
  apply (@WaitFrameClose_stale_signal "b" freeEncoder
           (Text, [list_byte_of_string "abc"]) Binary); reflexivity.
Defined.

Lemma quietStep_clock (binaryPrefix : byte) (e e' : encoder) :
  quietStep binaryPrefix e e' ->
  pingTimeout e' = pingTimeout e /\ lastPing e' = lastPing e.
Proof.
  intros H. destruct H as [e ft e' r H|w e p w' e' r H|w e b w' e' r H
                          |w e w' e' r H|e e' H|e start out e' out' r H
                          |e start out e' out' r H].
  - unfold NextFrame, CompareAndSwapInt32 in H.
    destruct (closed e); [inversion H; now subst|].
    destruct (hasNonClosedFrame e =? 0)%Z; cbn in H;
      [|inversion H; now subst].
    destruct (FrameType_eqb ft Binary); inversion H; subst; split; reflexivity.
  - pose proof (Write_sameControl w e p) as S. rewrite H in S.
    destruct S as (Hp & Hl & _). now split.
  - unfold FrameWriter.WriteByte in H. cbn in H. inversion H; subst.
    split; reflexivity.
  - unfold FrameWriter.Close in H.
    destruct (base64 w) as [enc|].
    + destruct (Base64Encoder.Close enc (writer e)) as [[enc' bw] rr].
      cbn [BufWriter.WriteByte] in H. unfold trySend in H.
      destruct (hasFramesChan _); inversion H; subst; split; reflexivity.
    + cbn [BufWriter.WriteByte] in H. unfold trySend in H.
      destruct (hasFramesChan _); inversion H; subst; split; reflexivity.
  - apply WaitFrameClose_same in H. now subst.
  - unfold WriteFramesTo in H. destruct (hasFramesChan e); [|discriminate].
    unfold BufWriter.WriteFinishedFrames, ioWrite in H. cbn in H.
    destruct (answer out); inversion H; subst; split; reflexivity.
  - unfold WriteFramesTo in H. destruct (closed e); [|discriminate].
    inversion H; now subst.
Qed.

Lemma quietSteps_clock (binaryPrefix : byte) (e e' : encoder) :
  quietSteps binaryPrefix e e' ->
  pingTimeout e' = pingTimeout e /\ lastPing e' = lastPing e.
Proof.
  induction 1 as [e|e1 e2 e3 Hstep _ [IHp IHl]]; [split; reflexivity|].
  destruct (quietStep_clock Hstep) as [Hp Hl]. split; congruence.
Qed.

(** X12. Two ping timeouts are at least [pingTimeout] apart, whatever frames
    are opened, written, closed, waited for and flushed between them, and
    whenever [WriteFramesTo] is entered: only a timeout moves [lastPing]. *)
Theorem ping_timeouts_spaced (binaryPrefix : byte)
    (e e1 e2 e3 : encoder) (start start' t t' : Z)
    (out out1 out2 out3 : ioWriter) (r r' : option error) :
  WriteFramesTo e start (TimerFired t) out = Some (e1, out1, r) ->
  quietSteps binaryPrefix e1 e2 ->
  WriteFramesTo e2 start' (TimerFired t') out2 = Some (e3, out3, r') ->
  (t + pingTimeout e <= t')%Z /\ lastPing e3 = t' /\
  r = Some ErrPingTimeout /\ r' = Some ErrPingTimeout.
Proof.
  intros H1 Hquiet H2. unfold WriteFramesTo in H1, H2.
  destruct ((start <=? t)%Z && _) eqn:E1; [|discriminate].
  destruct ((start' <=? t')%Z && _) eqn:E2; [|discriminate].
  inversion H1; subst. inversion H2; subst.
  destruct (quietSteps_clock Hquiet) as [Hp Hl].
  cbn [set_lastPing pingTimeout lastPing] in Hp, Hl.
  apply andb_true_iff in E2. destruct E2 as [_ E2]. apply Z.leb_le in E2.
  rewrite Hp, Hl in E2. repeat split. lia.
Qed.

Lemma ping_timeouts_spaced_witness :
  (25000 + pingTimeout busyEncoder <= 50000)%Z /\
  lastPing
    (set_lastPing
       (set_writer (set_hasFramesChan (set_lastPing busyEncoder 25000) false)
          {| buf := [] |}) 50000) = 50000%Z /\
  Some ErrPingTimeout = Some ErrPingTimeout /\
  Some ErrPingTimeout = Some ErrPingTimeout.
Proof.
  apply (@ping_timeouts_spaced "b" busyEncoder
           (set_lastPing busyEncoder 25000)
           (set_writer (set_hasFramesChan (set_lastPing busyEncoder 25000) false)
              {| buf := [] |})
           (set_lastPing
              (set_writer
                 (set_hasFramesChan (set_lastPing busyEncoder 25000) false)
                 {| buf := [] |}) 50000)
           10 26000 25000 50000
           emptyOutput emptyOutput emptyOutput emptyOutput
           (Some ErrPingTimeout) (Some ErrPingTimeout)).
  - reflexivity.
  - eapply quietMore; [|apply quietNone].
    eapply stepFlush with (start := 26000%Z) (out := emptyOutput).
    reflexivity.
  - reflexivity.
Defined.

(** X20. [WriteByte] on a binary frame's writer does not go through the
    base64 encoder: the byte lands in the buffer as it is, behind the text of
    the complete groups written so far and before the bytes the encoder
    still holds back, which [Close] encodes behind it. *)
Theorem WriteByte_bypasses_base64 (binaryPrefix : byte) (e : encoder)
    (ps : list (list byte)) (y : byte) :
  closed e = false -> hasNonClosedFrame e = 0%Z ->
  exists e1 w1 w2 e2 e3 w4 e4,
    NextFrame binaryPrefix e Binary = (e1, inl w1) /\
    FrameWriter.WriteAll w1 e1 ps = (w2, e2, None) /\
    FrameWriter.WriteByte w2 e2 y = (w2, e3, None) /\
    FrameWriter.Close w2 e3 = (w4, e4, None) /\
    buf (writer e4)
    = buf (writer e) ++ [binaryPrefix]
      ++ Encode (fst (splitBlocks (concat ps)))
      ++ [y]
      ++ Encode (snd (splitBlocks (concat ps)))
      ++ [separator].
Proof.
  intros Hc Hf.
  destruct (NextFrame_Binary_streamed binaryPrefix e Hc Hf)
    as (e1 & w1 & Hnext & H1).
  destruct (WriteAll_streamed ps H1) as (w2 & e2 & Hall & [Hw2 Hbuf2] & _).
  cbn [app] in Hw2, Hbuf2.
  set (e3 := set_writer e2 {| buf := buf (writer e2) ++ [y] |}).
  assert (Hbyte : FrameWriter.WriteByte w2 e2 y = (w2, e3, None))
    by reflexivity.
  destruct (Base64Encoder_Close_spec (snd (splitBlocks (concat ps)))
              (writer e3)) as (enc' & bw' & HC & Hbw).
  exists e1, w1, w2, e2, e3.
  unfold FrameWriter.Close. rewrite Hw2, HC. cbn [BufWriter.WriteByte].
  unfold trySend.
  destruct (hasFramesChan _); eexists _, _;
    (do 3 (split; [assumption|])); (split; [reflexivity|]);
    cbn [writer set_writer set_hasNonClosedFrame set_hasFramesChan buf];
    rewrite Hbw; subst e3; cbn [writer set_writer buf]; rewrite Hbuf2;
    rewrite <- !app_assoc; reflexivity.
Qed.

Lemma WriteByte_bypasses_base64_witness :
  closed freeEncoder = false /\ hasNonClosedFrame freeEncoder = 0%Z /\
  exists e1 w1 w2 e2 e3 w4 e4,
    NextFrame "b" freeEncoder Binary = (e1, inl w1) /\
    FrameWriter.WriteAll w1 e1 [list_byte_of_string "hell"] = (w2, e2, None) /\
    FrameWriter.WriteByte w2 e2 "o"%byte = (w2, e3, None) /\
    FrameWriter.Close w2 e3 = (w4, e4, None) /\
    buf (writer e4)
    = buf (writer freeEncoder) ++ ["b"%byte]
      ++ Encode (fst (splitBlocks (concat [list_byte_of_string "hell"])))
      ++ ["o"%byte]
      ++ Encode (snd (splitBlocks (concat [list_byte_of_string "hell"])))
      ++ [separator].
Proof.
  split; [reflexivity|]. split; [reflexivity|].
  apply (@WriteByte_bypasses_base64 "b" freeEncoder
           [list_byte_of_string "hell"] "o"%byte); reflexivity.
Defined.

(** The same, computed: [hell] written, [o] through [WriteByte], closed. *)
Example WriteByte_in_binary_frame :
  let '(e1, r) := NextFrame "b" freeEncoder Binary in
  match r with
  | inl w1 =>
      let '(w2, e2, _) :=
        FrameWriter.WriteAll w1 e1 [list_byte_of_string "hell"] in
      let '(_, e3, _) := FrameWriter.WriteByte w2 e2 "o"%byte in
      let '(_, e4, _) := FrameWriter.Close w2 e3 in
      buf (writer e4) = list_byte_of_string "baGVsobA==" ++ [separator]
  | inr _ => False
  end.
Proof. vm_compute. reflexivity. Qed.

(** X21. [Close] does not ask whether its writer is the open one.  When a
    frame was written and closed and the next frame is open, closing the
    first writer once more succeeds, puts one more separator into the buffer
    and releases the flag the second writer holds: a third [NextFrame]
    succeeds while the second frame is still open. *)
Theorem Close_twice_breaks_exclusivity (binaryPrefix : byte) (e : encoder)
    (ps : list (list byte)) (ft ft' : FrameType) :
  closed e = false -> hasNonClosedFrame e = 0%Z ->
  forallb (fun p => negb (FrameWriter.hasSeparator p)) ps = true ->
  exists e1 w1 e2 e3 e4 w4 e5 e6 w6,
    NextFrame binaryPrefix e Text = (e1, inl w1) /\
    FrameWriter.WriteAll w1 e1 ps = (w1, e2, None) /\
    FrameWriter.Close w1 e2 = (w1, e3, None) /\
    NextFrame binaryPrefix e3 ft = (e4, inl w4) /\
    hasNonClosedFrame e4 = 1%Z /\
    FrameWriter.Close w1 e4 = (w1, e5, None) /\
    buf (writer e5) = buf (writer e4) ++ [separator] /\
    hasNonClosedFrame e5 = 0%Z /\
    NextFrame binaryPrefix e5 ft' = (e6, inl w6).
Proof.
  intros Hc Hf Hclean.
  destruct (NextFrame_free binaryPrefix e Text Hc Hf)
    as (e1 & w1 & Hnext & Hc1 & _ & _ & _ & Hw1).
  cbn [FrameType_eqb] in Hw1.
  destruct (WriteAll_text ps w1 e1 Hw1) as (e2 & Hall & _ & Hsame).
  rewrite Hclean in Hall.
  destruct (Close_text w1 e2 Hw1) as (e3 & Hclose & _).
  destruct (Close_releases w1 e2) as (w3' & e3' & Hclose' & Hc3 & Hf3 & _).
  rewrite Hclose in Hclose'. inversion Hclose'; subst w3' e3'.
  destruct Hsame as (_ & _ & _ & Hc2 & _).
  assert (Hc3' : closed e3 = false) by congruence.
  destruct (NextFrame_free binaryPrefix e3 ft Hc3' Hf3)
    as (e4 & w4 & Hnext4 & Hc4 & Hf4 & _).
  destruct (Close_text w1 e4 Hw1) as (e5 & Hclose5 & Hbuf5).
  destruct (Close_releases w1 e4) as (w5' & e5' & Hclose5' & Hc5 & Hf5 & _).
  rewrite Hclose5 in Hclose5'. inversion Hclose5'; subst w5' e5'.
  assert (Hc5' : closed e5 = false) by congruence.
  destruct (NextFrame_free binaryPrefix e5 ft' Hc5' Hf5)
    as (e6 & w6 & Hnext6 & _).
  exists e1, w1, e2, e3, e4, w4, e5, e6, w6.
  repeat (split; [assumption|]). assumption.
Qed.

Lemma Close_twice_breaks_exclusivity_witness :
  exists e1 w1 e2 e3 e4 w4 e5 e6 w6,
    NextFrame "b" freeEncoder Text = (e1, inl w1) /\
    FrameWriter.WriteAll w1 e1 [list_byte_of_string "abc"] = (w1, e2, None) /\
    FrameWriter.Close w1 e2 = (w1, e3, None) /\
    NextFrame "b" e3 Binary = (e4, inl w4) /\
    hasNonClosedFrame e4 = 1%Z /\
    FrameWriter.Close w1 e4 = (w1, e5, None) /\
    buf (writer e5) = buf (writer e4) ++ [separator] /\
    hasNonClosedFrame e5 = 0%Z /\
    NextFrame "b" e5 Text = (e6, inl w6).
Proof.
  apply (@Close_twice_breaks_exclusivity "b" freeEncoder
           [list_byte_of_string "abc"] Binary Text); reflexivity.
Defined.

(* ----------------------------------------------------------------- *)
(** *** The client: further properties *)

Lemma extends_refl (c : Client) (w : World) (st : status) :
  extends c w (c, w, st).
Proof.
  unfold extends. cbn. repeat split; trivial. exists []. now rewrite app_nil_r.
Qed.

Lemma extends_via (c1 c2 : Client) (w1 w2 : World) (s : status)
    (r : Client * World * status) :
  extends c1 w1 (c2, w2, s) -> extends c2 w2 r -> extends c1 w1 r.
Proof.
  unfold extends. cbn [fst snd].
  intros (A1 & A2 & A3 & A4 & A5 & A6 & A7 & A8 & A9 & t1 & A10)
         (B1 & B2 & B3 & B4 & B5 & B6 & B7 & B8 & B9 & t2 & B10).
  repeat split; try congruence; try lia.
  exists (t1 ++ t2). rewrite B10, A10. now rewrite app_assoc.
Qed.

Lemma extends_status (c c' : Client) (w w' : World) (s s' : status) :
  extends c w (c', w', s) -> extends c w (c', w', s').
Proof. exact (fun H => H). Qed.

Lemma extends_emit (c : Client) (w : World) (ev : event) (st : status) :
  extends c w (c, emit w ev, st).
Proof.
  unfold extends. cbn. repeat split; trivial. now exists [ev].
Qed.

Lemma extends_set_reconnecting (c : Client) (w : World) (v : bool)
    (st : status) :
  extends c w (set_reconnecting c v, w, st).
Proof.
  unfold extends. cbn. repeat split; trivial. exists []. now rewrite app_nil_r.
Qed.

Lemma extends_reset (c : Client) (w : World) (st : status) :
  extends c w
    (set_reconnecting (set_retryStrategy c (Reset (retryStrategy c))) false,
     w, st).
Proof.
  unfold extends. cbn. repeat split; trivial. exists []. now rewrite app_nil_r.
Qed.

Lemma extends_draw (c : Client) (w : World) (st : status) :
  extends c w (snd (fst (drawDuration c w)), snd (drawDuration c w), st).
Proof.
  unfold drawDuration, Duration.
  destruct (Qgt0 (jitter (retryStrategy c))); unfold extends; cbn;
    repeat split; trivial; try lia; exists []; now rewrite app_nil_r.
Qed.

Lemma extends_all (fuel : nat) :
  forall (c : Client) (w : World),
    extends c w (reconnect fuel c w) /\
    (forall d, extends c w (reconnectLoop fuel d c w)) /\
    extends c w (Connect fuel c w) /\
    extends c w (Close fuel c w).
Proof.
  induction fuel as [|fuel IH]; intros c w.
  - split; [apply extends_refl|]. split; [intros d; apply extends_refl|].
    split; apply extends_refl.
  - assert (Hconnect : extends c w (Connect (S fuel) c w)).
    { rewrite Connect_S. cbv zeta.
      destruct (outcomes w (connects w)) as [e|e|].
      - unfold extends. cbn. repeat split; trivial; try lia. now exists [Dial].
      - destruct (IH (set_conn c (Some (connects w)))
                     (nextConnect (emit w Dial))) as (_ & _ & _ & Hclose).
        destruct (Close fuel _ _) as [[c2 w2] st].
        assert (H0 : extends c w
                       (set_conn c (Some (connects w)),
                        nextConnect (emit w Dial), Running)).
        { unfold extends. cbn. repeat split; trivial; try lia.
          now exists [Dial]. }
        pose proof (extends_via H0 Hclose) as H1.
        destruct st as [r|]; [|exact H1].
        destruct (rootOnError c2); [|exact H1].
        eapply extends_via; [exact H1|]. apply extends_emit.
      - unfold extends. cbn. repeat split; trivial; try lia.
        exists [Dial; Tasks]. now rewrite <- app_assoc. }
    assert (Hloop : forall d, extends c w (reconnectLoop (S fuel) d c w)).
    { intros d. rewrite reconnectLoop_S.
      destruct (IH c (emit w (Sleep (toDuration d)))) as (_ & _ & Hc & _).
      destruct (Connect fuel c _) as [[c1 w2] st].
      pose proof (extends_via
                    (extends_emit c w (Sleep (toDuration d)) Running) Hc) as H1.
      destruct st as [[e|]|].
      - destruct (IH (set_reconnecting c1 false) w2) as (_ & Hl & _).
        eapply extends_via; [exact H1|].
        eapply extends_via; [|exact (Hl d)].
        apply (extends_set_reconnecting c1 w2 false Running).
      - eapply extends_via; [exact H1|]. apply extends_reset.
      - exact H1. }
    assert (Hreconnect : extends c w (reconnect (S fuel) c w)).
    { rewrite reconnect_S.
      destruct (reconnecting c); [apply extends_refl|].
      destruct (reached _ _); [apply extends_reset|].
      pose proof (extends_draw c w Running) as Hd.
      destruct (drawDuration c w) as [[delay c1] w1]. cbn [fst snd] in Hd.
      destruct (IH (set_reconnecting c1 true) w1) as (_ & Hl & _).
      eapply extends_via; [exact Hd|].
      eapply extends_via; [|exact (Hl delay)].
      apply (extends_set_reconnecting c1 w1 true Running). }
    split; [exact Hreconnect|]. split; [exact Hloop|].
    split; [exact Hconnect|].
    rewrite Close_S. destruct (reconnection c) eqn:Hrec.
    + destruct (IH (set_reconnecting
                      (set_retryStrategy c (Reset (retryStrategy c))) false) w)
        as (Hr & _).
      eapply extends_via; [|exact Hr]. apply (extends_reset c w Running).
    + apply extends_emit.
Qed.

(** X13. Whatever [reconnect], [Connect] and [Close] do and however far
    they get, they leave the client's switches, its attempt bound and the
    settings of its backoff as they were, and they only add to what the
    client has done so far: events are appended, never removed. *)
Theorem client_calls_extend (fuel : nat) (c : Client) (w : World) :
  extends c w (reconnect fuel c w) /\
  extends c w (Connect fuel c w) /\
  extends c w (Close fuel c w).
Proof.
  destruct (extends_all fuel c w) as (H1 & _ & H3 & H4). auto.
Qed.

Lemma reconnect_error_is_exhaustion (fuel : nat) (c c' : Client)
    (w w' : World) (er : error) :
  reconnect fuel c w = (c', w', Returned (Some er)) ->
  er = ErrReconnectFailed /\
  reconnecting c = false /\
  reached (attempts (retryStrategy c)) (reconnectionAttempts c) = true /\
  w' = w /\
  c' = set_reconnecting (set_retryStrategy c (Reset (retryStrategy c))) false.
Proof.
  intros H. destruct fuel as [|fuel]; [discriminate|].
  rewrite reconnect_S in H.
  destruct (reconnecting c); [discriminate|].
  destruct (reached _ _).
  - inversion H; subst. repeat split.
  - destruct (drawDuration c w) as [[delay c1] w1].
    apply reconnectLoop_returns_connected in H. destruct H as [H _].
    discriminate.
Qed.

(** X14. The only error [reconnect] ever returns is the exhaustion error,
    and it returns it only when no reconnection was in flight and the
    attempts had reached the bound on entry: then nothing was done outside,
    and the backoff is reset.  With the unbounded default it returns no
    error at all. *)
Theorem reconnect_only_error (fuel : nat) (c c' : Client) (w w' : World)
    (er : error) :
  reconnect fuel c w = (c', w', Returned (Some er)) ->
  er = ErrReconnectFailed /\
  reconnecting c = false /\
  reached (attempts (retryStrategy c)) (reconnectionAttempts c) = true /\
  reconnectionAttempts c <> Infinity /\
  w' = w /\
  attempts (retryStrategy c') = 0%nat /\ reconnecting c' = false.
Proof.
  intros H.
  destruct (reconnect_error_is_exhaustion _ _ _ H)
    as (He & Hflag & Hmax & Hw & Hc).
  subst c'. repeat split; trivial.
  intros Hinf. rewrite Hinf in Hmax. discriminate.
Qed.

Lemma reconnect_only_error_witness :
  ErrReconnectFailed = ErrReconnectFailed /\
  reconnecting spentClient = false /\
  reached (attempts (retryStrategy spentClient))
          (reconnectionAttempts spentClient) = true /\
  reconnectionAttempts spentClient <> Infinity /\
  quietWorld failsOnce = quietWorld failsOnce /\
  attempts (retryStrategy
              (set_reconnecting
                 (set_retryStrategy spentClient
                    (Reset (retryStrategy spentClient))) false)) = 0%nat /\
  reconnecting
    (set_reconnecting
       (set_retryStrategy spentClient (Reset (retryStrategy spentClient)))
       false) = false.
Proof.
  apply (@reconnect_only_error 3 spentClient
           (set_reconnecting
              (set_retryStrategy spentClient
                 (Reset (retryStrategy spentClient))) false)
           (quietWorld failsOnce) (quietWorld failsOnce) ErrReconnectFailed).
  reflexivity.
Defined.

(** X15. A client at rest (no attempts counted, no reconnection in flight)
    whose bound allows a first attempt is at rest again whenever [reconnect]
    returns, and [reconnect] returns no error: so in any sequence of
    reconnections, each started after the one before has returned, the bound
    is never reached. *)
Theorem reconnect_keeps_at_rest (fuel : nat) (c c' : Client) (w w' : World)
    (r : option error) :
  atRest c ->
  reconnect fuel c w = (c', w', Returned r) ->
  r = None /\ atRest c'.
Proof.
  intros (Ha & Hflag & Hbound) H.
  pose proof (proj1 (extends_all fuel c w)) as Hext. rewrite H in Hext.
  destruct Hext as (_ & Hlim & _). cbn [fst snd] in Hlim.
  destruct r as [er|].
  - apply reconnect_error_is_exhaustion in H.
    destruct H as (_ & _ & Hmax & _). rewrite Ha in Hmax. congruence.
  - split; [reflexivity|].
    destruct fuel as [|fuel]; [discriminate|].
    rewrite reconnect_S, Hflag, Ha, Hbound in H.
    destruct (drawDuration c w) as [[delay c1] w1].
    apply reconnectLoop_returns_connected in H.
    destruct H as (_ & Ha' & Hflag').
    unfold atRest. rewrite Hlim. auto.
Qed.

Lemma reconnect_keeps_at_rest_witness :
  atRest freshClient /\
  exists c' w',
    reconnect 4 freshClient (quietWorld failsOnce) = (c', w', Returned None) /\
    None = (None : option error) /\ atRest c'.
Proof.
  assert (H0 : atRest freshClient) by (repeat split).
  split; [exact H0|].
  destruct (reconnect 4 freshClient (quietWorld failsOnce))
    as [[c' w'] st] eqn:E.
  assert (Hst : st = Returned None) by (vm_compute in E; congruence).
  subst st. exists c', w'. split; [reflexivity|].
  apply (@reconnect_keeps_at_rest 4 freshClient c' (quietWorld failsOnce) w'
           None H0 E).
Defined.

Lemma firstDelay_ext (b b' : RetryStrategy) (dr : nat -> Q) (ev : event) :
  Reset b' = Reset b -> firstDelay b dr ev -> firstDelay b' dr ev.
Proof. unfold firstDelay. intros E. destruct ev; trivial. now rewrite E. Qed.

Lemma waits_refl (c : Client) (w : World) (st : status) :
  waitsFirstDelays c w (c, w, st).
Proof. exists []. cbn. rewrite app_nil_r. split; [reflexivity | constructor]. Qed.

Lemma waits_via (c1 c2 : Client) (w1 w2 : World) (s : status)
    (r : Client * World * status) :
  extends c1 w1 (c2, w2, s) ->
  waitsFirstDelays c1 w1 (c2, w2, s) -> waitsFirstDelays c2 w2 r ->
  waitsFirstDelays c1 w1 r.
Proof.
  intros (_ & _ & _ & Hb & _ & Hd & _) (t1 & E1 & F1) (t2 & E2 & F2).
  cbn [fst snd] in *.
  exists (t1 ++ t2). split.
  - rewrite E2, E1. now rewrite app_assoc.
  - apply Forall_app. split; [exact F1|].
    rewrite Hd in F2. eapply Forall_impl; [|exact F2].
    intros ev. apply firstDelay_ext. now rewrite Hb.
Qed.

Lemma waits_emit (c : Client) (w : World) (ev : event) (st : status) :
  firstDelay (retryStrategy c) (draws w) ev ->
  waitsFirstDelays c w (c, emit w ev, st).
Proof.
  intros H. exists [ev]. cbn. split; [reflexivity|]. now constructor.
Qed.

Lemma waits_same_trace (c c' : Client) (w w' : World) (st : status) :
  trace w' = trace w -> waitsFirstDelays c w (c', w', st).
Proof.
  intros E. exists []. cbn. rewrite app_nil_r. split; [exact E | constructor].
Qed.

Lemma Reset_at_zero (b : RetryStrategy) : attempts b = 0%nat -> Reset b = b.
Proof. destruct b. cbn. intros ->. reflexivity. Qed.

Lemma waits_all (fuel : nat) :
  forall (c : Client) (w : World),
    (attempts (retryStrategy c) = 0%nat ->
     waitsFirstDelays c w (reconnect fuel c w)) /\
    (forall d,
       firstDelay (retryStrategy c) (draws w) (Sleep (toDuration d)) ->
       waitsFirstDelays c w (reconnectLoop fuel d c w)) /\
    waitsFirstDelays c w (Connect fuel c w) /\
    waitsFirstDelays c w (Close fuel c w).
Proof.
  induction fuel as [|fuel IH]; intros c w.
  - split; [intros _; apply waits_refl|].
    split; [intros d _; apply waits_refl|]. split; apply waits_refl.
  - assert (Hconnect : waitsFirstDelays c w (Connect (S fuel) c w)).
    { pose proof (proj1 (proj2 (proj2 (extends_all (S fuel) c w)))) as Hext.
      rewrite Connect_S in *. cbv zeta in *.
      destruct (outcomes w (connects w)) as [e|e|].
      - exists [Dial]. cbn. split; [reflexivity|]. repeat constructor.
      - set (c1 := set_conn c (Some (connects w))) in *.
        set (w1 := nextConnect (emit w Dial)) in *.
        destruct (IH c1 w1) as (_ & _ & _ & Hclose).
        pose proof (proj2 (proj2 (proj2 (extends_all fuel c1 w1)))) as Hx.
        assert (H0 : extends c w (c1, w1, Running)).
        { subst c1 w1. unfold extends. cbn. repeat split; trivial; try lia.
          now exists [Dial]. }
        assert (W0 : waitsFirstDelays c w (c1, w1, Running)).
        { exists [Dial]. subst c1 w1. cbn. split; [reflexivity|].
          repeat constructor. }
        destruct (Close fuel c1 w1) as [[c2 w2] st].
        pose proof (waits_via H0 W0 Hclose) as W1.
        destruct st as [r|]; [|exact W1].
        destruct (rootOnError c2); [|exact W1].
        eapply (@waits_via c c2 w w2 Running).
        + exact (extends_via H0 Hx).
        + exact W1.
        + apply waits_emit. exact I.
      - exists [Dial; Tasks]. cbn. rewrite <- app_assoc.
        split; [reflexivity|]. repeat constructor. }
    assert (Hloop : forall d,
               firstDelay (retryStrategy c) (draws w) (Sleep (toDuration d)) ->
               waitsFirstDelays c w (reconnectLoop (S fuel) d c w)).
    { intros d Hd. rewrite reconnectLoop_S.
      set (w0 := emit w (Sleep (toDuration d))).
      destruct (IH c w0) as (_ & _ & Hc & _).
      pose proof (proj1 (proj2 (proj2 (extends_all fuel c w0)))) as Hx.
      pose proof (extends_emit c w (Sleep (toDuration d)) Running) as H0.
      pose proof (@waits_emit c w (Sleep (toDuration d)) Running Hd) as W0.
      fold w0 in H0, W0.
      destruct (Connect fuel c w0) as [[c1 w2] st].
      pose proof (waits_via H0 W0 Hc) as W1.
      pose proof (extends_via H0 Hx) as H1.
      destruct st as [[e|]|].
      - destruct (IH (set_reconnecting c1 false) w2) as (_ & Hl & _).
        eapply (@waits_via c c1 w w2 Running); [exact H1 | exact W1 |].
        eapply (@waits_via c1 (set_reconnecting c1 false) w2 w2 Running).
        + apply extends_set_reconnecting.
        + now apply waits_same_trace.
        + apply Hl. cbn [set_reconnecting retryStrategy].
          destruct H1 as (_ & _ & _ & Hb & _ & Hdr & _). cbn [fst snd] in Hb, Hdr.
          rewrite Hdr. eapply firstDelay_ext; [|exact Hd]. now rewrite Hb.
      - eapply (@waits_via c c1 w w2 Running); [exact H1 | exact W1 |].
        now apply waits_same_trace.
      - exact W1. }
    split; [|split; [exact Hloop|split; [exact Hconnect|]]].
    + intros Ha. rewrite reconnect_S.
      destruct (reconnecting c); [apply waits_refl|].
      destruct (reached _ _); [now apply waits_same_trace|].
      pose proof (extends_draw c w Running) as Hd.
      pose proof (drawDuration_trace c w) as (Ht & _).
      assert (Hdelay : fst (fst (drawDuration c w))
                       = fst (Duration (Reset (retryStrategy c))
                                (draws w (drawn w)))).
      { unfold drawDuration. rewrite (Reset_at_zero _ Ha).
        now destruct (Duration (retryStrategy c) (draws w (drawn w))). }
      destruct (drawDuration c w) as [[delay c1] w1]. cbn [fst snd] in *.
      destruct (IH (set_reconnecting c1 true) w1) as (_ & Hl & _).
      eapply (@waits_via c c1 w w1 Running);
        [exact Hd | now apply waits_same_trace |].
      eapply (@waits_via c1 (set_reconnecting c1 true) w1 w1 Running).
      * apply extends_set_reconnecting.
      * now apply waits_same_trace.
      * apply Hl. cbn [set_reconnecting retryStrategy].
        destruct Hd as (_ & _ & _ & Hb & _ & Hdr & _). cbn [fst snd] in Hb, Hdr.
        rewrite Hdr. unfold firstDelay. exists (drawn w).
        rewrite Hb. now rewrite Hdelay.
    + rewrite Close_S. destruct (reconnection c).
      * set (c0 := set_reconnecting
                     (set_retryStrategy c (Reset (retryStrategy c))) false).
        destruct (IH c0 w) as (Hr & _).
        eapply (@waits_via c c0 w w Running).
        -- apply extends_reset.
        -- now apply waits_same_trace.
        -- apply Hr. reflexivity.
      * apply waits_emit. exact I.
Qed.

(** X16. The backoff of the client never grows: when [reconnect] starts with
    no attempt counted, every wait it makes, in its own loop and in the
    reconnections nested in it through a failed handshake and [Close], is for
    a delay that [Duration] returns at [attempts = 0]; the same holds for
    every wait [Close] leads to. *)
Theorem client_waits_first_delays (fuel : nat) (c : Client) (w : World) :
  attempts (retryStrategy c) = 0%nat ->
  waitsFirstDelays c w (reconnect fuel c w) /\
  waitsFirstDelays c w (Close fuel c w).
Proof.
  intros Ha. destruct (waits_all fuel c w) as (H1 & _ & _ & H4).
  split; [now apply H1 | exact H4].
Qed.

Lemma client_waits_first_delays_witness :
  waitsFirstDelays freshClient (quietWorld failsOnce)
    (reconnect 4 freshClient (quietWorld failsOnce)) /\
  waitsFirstDelays freshClient (quietWorld failsOnce)
    (Close 4 freshClient (quietWorld failsOnce)).
Proof.
  apply (@client_waits_first_delays 4 freshClient (quietWorld failsOnce)).
  reflexivity.
Defined.

Lemma reconnectLoop_keeps_dialling (fuel : nat) :
  forall (d : Q) (c : Client) (w : World),
    alwaysFails (outcomes w) ->
    snd (reconnectLoop fuel d c w) = Running /\
    count isDial (trace (snd (fst (reconnectLoop fuel d c w))))
    = (count isDial (trace w) + (fuel - 1))%nat.
Proof.
  induction fuel as [|fuel IH]; intros d c w Hfail.
  - cbn. split; [reflexivity | lia].
  - rewrite reconnectLoop_S. destruct fuel as [|fuel'].
    + cbn [Connect fst snd]. rewrite count_emit. cbn. split; [reflexivity | lia].
    + rewrite Connect_S. cbv zeta. cbn [emit outcomes connects].
      destruct (Hfail (connects w)) as [e He]. rewrite He.
      destruct (IH d (set_reconnecting c false)
                   (nextConnect (emit (emit w (Sleep (toDuration d))) Dial)))
        as [Hrun Hcount].
      { intros i. apply Hfail. }
      split; [exact Hrun|]. rewrite Hcount.
      cbn [nextConnect trace]. rewrite !count_emit. cbn. lia.
Qed.

(** X17. Against a dialer that fails at every call, a [reconnect] that gets
    past the guard and the budget check never returns, and it goes on
    dialling: the attempt bound does not stop it.  After [fuel] steps it has
    dialled [fuel - 2] times. *)
Theorem reconnect_never_gives_up (fuel : nat) (c : Client) (w : World) :
  reconnecting c = false ->
  reached (attempts (retryStrategy c)) (reconnectionAttempts c) = false ->
  alwaysFails (outcomes w) ->
  snd (reconnect fuel c w) = Running /\
  count isDial (trace (snd (fst (reconnect fuel c w))))
  = (count isDial (trace w) + (fuel - 2))%nat.
Proof.
  intros Hflag Hmax Hfail. destruct fuel as [|fuel].
  - cbn. split; [reflexivity | lia].
  - rewrite reconnect_S, Hflag, Hmax.
    pose proof (drawDuration_trace c w) as (Ht & Ho & _).
    destruct (drawDuration c w) as [[delay c1] w1]. cbn [fst snd] in Ht, Ho.
    destruct (@reconnectLoop_keeps_dialling fuel delay
                (set_reconnecting c1 true) w1) as [Hrun Hcount].
    { unfold alwaysFails. now rewrite Ho. }
    split; [exact Hrun|]. rewrite Hcount, Ht. lia.
Qed.

Lemma reconnect_never_gives_up_witness :
  snd (reconnect 50 threeAttemptsClient (quietWorld neverConnects)) = Running /\
  count isDial
    (trace (snd (fst (reconnect 50 threeAttemptsClient (quietWorld neverConnects)))))
  = (count isDial (trace (quietWorld neverConnects)) + (50 - 2))%nat.
Proof.
  apply (@reconnect_never_gives_up 50 threeAttemptsClient
           (quietWorld neverConnects)).
  - reflexivity.
  - reflexivity.
  - intros i. exists ErrDial. reflexivity.
Defined.

Lemma reconnectLoop_connects (fuel : nat) (d : Q) (c : Client) (w : World) :
  outcomes w (connects w) = Connects ->
  reconnectLoop (S (S fuel)) d c w
  = (set_reconnecting
       (set_retryStrategy (set_conn c (Some (connects w)))
          (Reset (retryStrategy c))) false,
     emit (nextConnect (emit (emit w (Sleep (toDuration d))) Dial)) Tasks,
     Returned None).
Proof.
  intros H. rewrite reconnectLoop_S, Connect_S. cbv zeta.
  cbn [emit outcomes connects]. rewrite H. reflexivity.
Qed.

Lemma reconnect_connects (fuel : nat) (c : Client) (w : World) :
  reconnecting c = false ->
  reached (attempts (retryStrategy c)) (reconnectionAttempts c) = false ->
  outcomes w (connects w) = Connects ->
  reconnect (S (S (S fuel))) c w
  = (set_reconnecting
       (set_retryStrategy (set_conn c (Some (connects w)))
          (Reset (retryStrategy c))) false,
     emit (nextConnect
             (emit (emit (snd (drawDuration c w))
                      (Sleep (toDuration (fst (fst (drawDuration c w))))))
                Dial)) Tasks,
     Returned None).
Proof.
  intros Hflag Hmax H. rewrite reconnect_S, Hflag, Hmax.
  pose proof (drawDuration_trace c w) as (_ & Ho & Hn & _).
  assert (Hc : snd (fst (drawDuration c w))
               = set_retryStrategy c
                   (set_attempts (retryStrategy c)
                      (S (attempts (retryStrategy c))))).
  { unfold drawDuration.
    pose proof (Duration_state (retryStrategy c) (draws w (drawn w))) as S.
    destruct (Duration (retryStrategy c) (draws w (drawn w))) as [d0 b0].
    cbn [fst snd] in *. now subst b0. }
  destruct (drawDuration c w) as [[delay c1] w1]. cbn [fst snd] in *.
  rewrite reconnectLoop_connects by (rewrite Ho, Hn; exact H).
  subst c1. cbn. rewrite Hn. reflexivity.
Qed.

(** X18. A handshake that fails while [reconnect] is retrying, with
    reconnection enabled, makes the client connect twice: [Connect] calls
    [Close], which reconnects and connects; [Connect] still returns the
    handshake's error, so the loop of the first [reconnect] waits and
    connects once more.  Two connections have their tasks started, and the
    first of them is replaced without being closed. *)
Theorem handshake_failure_connects_twice (n : nat) (c : Client) (w : World)
    (e : error) :
  reconnection c = true -> reconnecting c = false ->
  reached (attempts (retryStrategy c)) (reconnectionAttempts c) = false ->
  reached 0 (reconnectionAttempts c) = false ->
  outcomes w (connects w) = HandshakeFails e ->
  outcomes w (S (connects w)) = Connects ->
  outcomes w (S (S (connects w))) = Connects ->
  exists c' w' d1 d2,
    reconnect (7 + n) c w = (c', w', Returned None) /\
    trace w'
    = trace w ++ [Sleep d1; Dial; Sleep d2; Dial; Tasks]
      ++ (if rootOnError c then [OnError e] else [])
      ++ [Sleep d1; Dial; Tasks] /\
    conn c' = Some (S (S (connects w))) /\
    count isTasks (trace w') = (count isTasks (trace w) + 2)%nat /\
    count isConnClose (trace w') = count isConnClose (trace w).
Proof.
  intros Hrec Hflag Hmax Hzero H0 H1 H2.
  change (7 + n)%nat with (S (S (S (S (S (S (S n))))))).
  rewrite reconnect_S, Hflag, Hmax.
  pose proof (extends_draw c w Running) as Hd.
  pose proof (drawDuration_trace c w) as (Ht & Ho & Hn & _).
  destruct (drawDuration c w) as [[delay c1] w1]. cbn [fst snd] in *.
  unfold extends in Hd. cbn [fst snd] in Hd.
  destruct Hd as (Hrec1 & Hlim1 & Hroot1 & _).
  rewrite reconnectLoop_S, Connect_S. cbv zeta.
  cbn [emit outcomes connects]. rewrite Ho, Hn, H0.
  rewrite Close_S. cbn [reconnection set_conn set_reconnecting].
  rewrite Hrec1, Hrec.
  rewrite reconnect_connects.
  2: reflexivity.
  2: { cbn. rewrite Hlim1. exact Hzero. }
  2: { cbn. rewrite Ho, Hn. exact H1. }
  cbn [rootOnError set_reconnecting set_retryStrategy set_conn].
  rewrite Hroot1.
  set (c3 := set_reconnecting _ false).
  set (w3 := emit (nextConnect _) Tasks).
  assert (Ho3 : outcomes w3 = outcomes w).
  { subst w3. cbn [emit nextConnect outcomes].
    match goal with
    | |- context [drawDuration ?cc ?ww] =>
        destruct (drawDuration_trace cc ww) as (Ht' & Ho' & Hn' & _)
    end.
    rewrite Ho'. cbn. exact Ho. }
  assert (Hn3 : connects w3 = S (S (connects w))).
  { subst w3. cbn [emit nextConnect connects].
    match goal with
    | |- context [drawDuration ?cc ?ww] =>
        destruct (drawDuration_trace cc ww) as (Ht' & Ho' & Hn' & _)
    end.
    rewrite Hn'. cbn. now rewrite Hn. }
  assert (Ht3 : exists d2,
             trace w3 = trace w ++ [Sleep (toDuration delay); Dial;
                                    Sleep d2; Dial; Tasks]).
  { eexists. subst w3. cbn [emit nextConnect trace].
    match goal with
    | |- context [drawDuration ?cc ?ww] =>
        destruct (drawDuration_trace cc ww) as (Ht' & Ho' & Hn' & _)
    end.
    rewrite Ht'. cbn [emit nextConnect trace]. rewrite Ht.
    rewrite <- !app_assoc. cbn [app]. reflexivity. }
  destruct Ht3 as [d2 Ht3].
  clearbody w3.
  set (w4 := if rootOnError c then emit w3 (OnError e) else w3).
  assert (Ho4 : outcomes w4 = outcomes w)
    by (subst w4; destruct (rootOnError c); exact Ho3).
  assert (Hn4 : connects w4 = S (S (connects w)))
    by (subst w4; destruct (rootOnError c); exact Hn3).
  assert (Ht4 : trace w4
                = trace w ++ [Sleep (toDuration delay); Dial;
                              Sleep d2; Dial; Tasks]
                  ++ (if rootOnError c then [OnError e] else [])).
  { subst w4. destruct (rootOnError c); cbn [emit trace]; rewrite Ht3.
    - rewrite <- app_assoc. reflexivity.
    - rewrite !app_nil_r. reflexivity. }
  clearbody w4.
  rewrite reconnectLoop_connects by (rewrite Ho4, Hn4; exact H2).
  eexists _, _, (toDuration delay), d2. split; [reflexivity|].
  cbn [emit nextConnect trace conn set_reconnecting set_retryStrategy set_conn].
  rewrite Ht4, Hn4.
  split; [|split; [reflexivity|]].
  - rewrite <- !app_assoc. reflexivity.
  - unfold count. rewrite !filter_app, !length_app.
    destruct (rootOnError c); cbn; split; lia.
Qed.

Lemma handshake_failure_connects_twice_witness :
  exists c' w' d1 d2,
    reconnect (7 + 0) freshClient (quietWorld handshakeFailsOnce)
    = (c', w', Returned None) /\
    trace w'
    = trace (quietWorld handshakeFailsOnce)
      ++ [Sleep d1; Dial; Sleep d2; Dial; Tasks]
      ++ (if rootOnError freshClient then [OnError ErrDial] else [])
      ++ [Sleep d1; Dial; Tasks] /\
    conn c' = Some (S (S (connects (quietWorld handshakeFailsOnce)))) /\
    count isTasks (trace w')
    = (count isTasks (trace (quietWorld handshakeFailsOnce)) + 2)%nat /\
    count isConnClose (trace w')
    = count isConnClose (trace (quietWorld handshakeFailsOnce)).
Proof.
  apply (@handshake_failure_connects_twice 0 freshClient
           (quietWorld handshakeFailsOnce) ErrDial); reflexivity.
Defined.

(** The same, computed: three dials and two connections for one
    reconnection. *)
Example handshake_failure_trace :
  trace (snd (fst (reconnect 7 freshClient (quietWorld handshakeFailsOnce))))
  = [Sleep 3000000000; Dial; Sleep 3000000000; Dial; Tasks;
     Sleep 3000000000; Dial; Tasks].
Proof. vm_compute. reflexivity. Qed.

(** X19. The handler that [OnDisconnect] installs panics exactly when, after
    the user's function has run, reconnection is enabled, none is in flight
    and the attempts have reached the bound; it panics with the exhaustion
    error, after the backoff was reset and before anything was done outside.
    In every other case it does not panic, however far the reconnection
    gets. *)
Theorem disconnectHandler_panics (f : Client -> World -> Client * World)
    (fuel : nat) (c : Client) (w : World) :
  let c1 := fst (f c w) in
  let w1 := snd (f c w) in
  if reconnection c1 && negb (reconnecting c1)
     && reached (attempts (retryStrategy c1)) (reconnectionAttempts c1)
  then
    disconnectHandler f (S fuel) c w
    = (set_reconnecting (set_retryStrategy c1 (Reset (retryStrategy c1))) false,
       w1, Panicked ErrReconnectFailed)
  else
    forall (n : nat) (c' : Client) (w' : World) (er : error),
      disconnectHandler f n c w <> (c', w', Panicked er).
Proof.
  cbv zeta. unfold disconnectHandler.
  destruct (f c w) as [c1 w1]. cbn [fst snd].
  destruct (reconnection c1) eqn:Hrec; cbn [andb];
    [|intros n c' w' er; discriminate].
  destruct (reconnecting c1) eqn:Hflag; cbn [negb andb].
  - intros n c' w' er H.
    destruct (reconnect n c1 w1) as [[c2 w2] st] eqn:E.
    destruct st as [[er'|]|]; try discriminate.
    apply reconnect_error_is_exhaustion in E. destruct E as (_ & E & _).
    congruence.
  - destruct (reached _ _) eqn:Hmax.
    + rewrite reconnect_S, Hflag, Hmax. reflexivity.
    + intros n c' w' er H.
      destruct (reconnect n c1 w1) as [[c2 w2] st] eqn:E.
      destruct st as [[er'|]|]; try discriminate.
      apply reconnect_error_is_exhaustion in E. destruct E as (_ & _ & E & _).
      congruence.
Qed.
